(** * Flappy-Bird-Clone: a shallow embedding of [main.py]

    The program is one Python module: a handful of helper functions over
    [pygame.Rect] values and a main loop that mutates module-level globals.
    The embedding keeps that shape:

    - the module globals are the fields of one record, [State];
    - a [pygame.Rect] is a record of four integers, with the attribute
      arithmetic of pygame written out (integer halving, strict overlap);
    - Python floats are IEEE binary64, here Rocq's primitive floats, so that
      [0.2425] and [0.05] round exactly as they do in the interpreter;
    - exceptions are the [Raise] branch of a small error monad;
    - the event queue, the random generator and the file system are inputs.

    Drawing calls ([blit], [draw_text], [display.update]) and the playing of
    sound effects change nothing the program reads back and are left out. *)

From Stdlib Require Import ZArith List Bool Lia String Ascii.
From Stdlib Require Import Decimal DecimalString DecimalZ DecimalPos.
From Stdlib Require Import Floats.PrimFloat Floats.SpecFloat Floats.FloatOps.
From Stdlib Require Import Sorted.
Import ListNotations.
Open Scope Z_scope.
Set Warnings "-inexact-float".

(* ------------------------------------------------------------------ *)
(** ** Exceptions *)

Inductive exn : Type :=
| ValueError
| OverflowError
| NameError
| OSError
| PygameError
| RequestError.

Inductive result (A : Type) : Type :=
| Ok (a : A)
| Raise (e : exn).
Arguments Ok {A} a.
Arguments Raise {A} e.

Definition bind {A B : Type} (m : result A) (k : A -> result B) : result B :=
  match m with
  | Ok a => k a
  | Raise e => Raise e
  end.

Notation "x <- m ;; k" := (bind m (fun x => k))
  (at level 61, m at next level, right associativity).

(** [try: m except Exception: h] *)
Definition try_except {A : Type} (m : result A) (h : exn -> result A) : result A :=
  match m with
  | Ok a => Ok a
  | Raise e => h e
  end.

(* ------------------------------------------------------------------ *)
(** ** Python floats *)

(** Python's [min(a, b)] keeps [a] unless [b < a]; [max(a, b)] keeps [a]
    unless [b > a]. *)
Definition py_min (a b : float) : float := if PrimFloat.ltb b a then b else a.
Definition py_max (a b : float) : float := if PrimFloat.ltb a b then b else a.

(** [int(x)] on a float: truncation toward zero; [ValueError] on NaN and
    [OverflowError] on an infinity. *)
Definition py_int_of_float (x : float) : result Z :=
  match Prim2SF x with
  | S754_zero _ => Ok 0
  | S754_finite sgn m e =>
      let a := match e with
               | Z0 => Zpos m
               | Zpos p => Zpos m * 2 ^ Zpos p
               | Zneg p => Zpos m / 2 ^ Zpos p
               end in
      Ok (if sgn then - a else a)
  | S754_infinity _ => Raise OverflowError
  | S754_nan => Raise ValueError
  end.

(* ------------------------------------------------------------------ *)
(** ** pygame.Rect and pygame.Surface *)

Record Rect : Type := mkRect { rx : Z; ry : Z; rw : Z; rh : Z }.

Record Surface : Type := mkSurface { get_width : Z; get_height : Z }.

(** Attribute getters.  pygame halves with C integer division. *)
Definition left (r : Rect) : Z := rx r.
Definition top (r : Rect) : Z := ry r.
Definition right (r : Rect) : Z := rx r + rw r.
Definition bottom (r : Rect) : Z := ry r + rh r.
Definition centerx (r : Rect) : Z := rx r + Z.quot (rw r) 2.
Definition centery (r : Rect) : Z := ry r + Z.quot (rh r) 2.

(** [r.centery = v] *)
Definition set_centery (r : Rect) (v : Z) : Rect :=
  mkRect (rx r) (v - Z.quot (rh r) 2) (rw r) (rh r).

(** [surface.get_rect(center=(cx, cy))], [midtop=...], [midbottom=...] *)
Definition get_rect_center (s : Surface) (cx cy : Z) : Rect :=
  mkRect (cx - Z.quot (get_width s) 2) (cy - Z.quot (get_height s) 2)
         (get_width s) (get_height s).
Definition get_rect_midtop (s : Surface) (cx t : Z) : Rect :=
  mkRect (cx - Z.quot (get_width s) 2) t (get_width s) (get_height s).
Definition get_rect_midbottom (s : Surface) (cx b : Z) : Rect :=
  mkRect (cx - Z.quot (get_width s) 2) (b - get_height s)
         (get_width s) (get_height s).

(** [r.move(dx, dy)] returns a new rectangle. *)
Definition move (r : Rect) (dx dy : Z) : Rect :=
  mkRect (rx r + dx) (ry r + dy) (rw r) (rh r).

(** [a.colliderect(b)]: rectangles of zero width or height collide with
    nothing; otherwise the test is a strict overlap of the normalised
    extents, so rectangles that only share an edge do not collide. *)
Definition colliderect (a b : Rect) : bool :=
  if (rw a =? 0) || (rh a =? 0) || (rw b =? 0) || (rh b =? 0) then false
  else
    (Z.min (rx a) (rx a + rw a) <? Z.max (rx b) (rx b + rw b)) &&
    (Z.min (ry a) (ry a + rh a) <? Z.max (ry b) (ry b + rh b)) &&
    (Z.max (rx a) (rx a + rw a) >? Z.min (rx b) (rx b + rw b)) &&
    (Z.max (ry a) (ry a + rh a) >? Z.min (ry b) (ry b + rh b)).

(** [pygame.transform.flip] keeps the size of the surface. *)
Definition flip (s : Surface) : Surface := s.

(* ------------------------------------------------------------------ *)
(** ** Python [int(str)] and [str(int)]

    Text is a sequence of code points below 256.  [int] strips surrounding
    white space, accepts one sign, and then wants decimal digits, with single
    underscores allowed between digits.  It refuses a text of more than 4300
    digits ([sys.get_int_max_str_digits()]); leading zeros count as digits,
    the sign and the underscores do not. *)

(** The characters that [int] skips at both ends: tab, line feed, vertical
    tab, form feed, carriage return, space, and of the code points from 128
    to 255 the two that are Unicode white space, U+0085 and U+00A0.  The
    separators U+001C to U+001F are not skipped. *)
Definition is_space (c : ascii) : bool :=
  let n := Z.of_nat (nat_of_ascii c) in
  ((9 <=? n) && (n <=? 13)) || (n =? 32) || (n =? 133) || (n =? 160).

Definition max_str_digits : nat := 4300.

Fixpoint lstrip (s : string) : string :=
  match s with
  | String c r => if is_space c then lstrip r else s
  | EmptyString => EmptyString
  end.

Fixpoint rstrip (s : string) : string :=
  match s with
  | EmptyString => EmptyString
  | String c r =>
      match rstrip r with
      | EmptyString => if is_space c then EmptyString else String c EmptyString
      | r' => String c r'
      end
  end.

Definition strip (s : string) : string := rstrip (lstrip s).

(** Removes the underscores of a digit string; [None] when one of them is
    not between two digits, or when there is no digit at all. *)
Fixpoint drop_underscores (after_digit : bool) (s : string) : option string :=
  match s with
  | EmptyString => if after_digit then Some EmptyString else None
  | String c r =>
      if Ascii.eqb c "_"
      then (if after_digit then drop_underscores false r else None)
      else option_map (String c) (drop_underscores true r)
  end.

Definition py_digits (s : string) : option Z :=
  match drop_underscores false s with
  | Some d =>
      if (max_str_digits <? String.length d)%nat then None
      else option_map Z.of_uint (NilZero.uint_of_string d)
  | None => None
  end.

Definition py_int_of_str (s : string) : result Z :=
  let t := strip s in
  let r := match t with
           | String c r =>
               if Ascii.eqb c "-" then option_map Z.opp (py_digits r)
               else if Ascii.eqb c "+" then py_digits r
               else py_digits t
           | EmptyString => None
           end in
  match r with
  | Some n => Ok n
  | None => Raise ValueError
  end.

(** [str] of an integer: its decimal digits, after a minus sign when it is
    negative.  (The interpreter also refuses to print an integer of more
    than 4300 digits; the program prints only scores it has counted one by
    one, and that refusal is left out.) *)
Definition py_str_of_int (n : Z) : string := NilZero.string_of_int (Z.to_int n).

(** Characters that can occur in text that [int] accepts. *)
Definition is_digit (c : ascii) : bool :=
  let n := Z.of_nat (nat_of_ascii c) in (48 <=? n) && (n <=? 57).

Definition numeric_char (c : ascii) : bool :=
  is_digit c || is_space c || Ascii.eqb c "_" || Ascii.eqb c "+" || Ascii.eqb c "-".

(** *** The texts that [int] accepts, stated apart from the parser

    A text spells an integer when it is, between two stretches of white
    space, an optional sign followed by groups of decimal digits separated
    by single underscores, with at most 4300 digits in all.  Its value is
    the decimal value of the digits, negated after a minus sign. *)

Definition blank (s : string) : Prop :=
  Forall (fun c => is_space c = true) (list_ascii_of_string s).

Definition digits_only (d : string) : Prop :=
  Forall (fun c => is_digit c = true) (list_ascii_of_string d).

Definition digit_value (c : ascii) : Z := Z.of_nat (nat_of_ascii c) - 48.

Fixpoint decimal_acc (acc : Z) (d : string) : Z :=
  match d with
  | EmptyString => acc
  | String c rest => decimal_acc (10 * acc + digit_value c) rest
  end.

Definition decimal_value (d : string) : Z := decimal_acc 0 d.

(** [grouped raw d]: [raw] is the digits [d] with single underscores put
    between some of them. *)
Inductive grouped : string -> string -> Prop :=
| grouped_last c :
    is_digit c = true -> grouped (String c EmptyString) (String c EmptyString)
| grouped_digit c raw d :
    is_digit c = true -> grouped raw d -> grouped (String c raw) (String c d)
| grouped_underscore c raw d :
    is_digit c = true -> grouped raw d ->
    grouped (String c (String "_" raw)) (String c d).

Inductive spells : string -> Z -> Prop :=
| spells_unsigned pre raw post d :
    blank pre -> blank post -> grouped raw d ->
    (String.length d <= max_str_digits)%nat ->
    spells (pre ++ raw ++ post) (decimal_value d)
| spells_plus pre raw post d :
    blank pre -> blank post -> grouped raw d ->
    (String.length d <= max_str_digits)%nat ->
    spells (pre ++ "+" ++ raw ++ post) (decimal_value d)
| spells_minus pre raw post d :
    blank pre -> blank post -> grouped raw d ->
    (String.length d <= max_str_digits)%nat ->
    spells (pre ++ "-" ++ raw ++ post) (- decimal_value d).

(* ------------------------------------------------------------------ *)
(** ** The high-score file *)

(** What the path [HIGHSCORE_FILE] holds: nothing, a text file, or something
    that [open] refuses (a directory, a file without permission). *)
Inductive File : Type :=
| Missing
| Text (content : string)
| Denied.

Definition path_exists (f : File) : bool :=
  match f with Missing => false | _ => true end.

Definition open_read (f : File) : result string :=
  match f with
  | Text s => Ok s
  | _ => Raise OSError
  end.

Definition load_highscore (disk : File) : result Z :=
  if path_exists disk then
    content <- open_read disk ;;
    try_except (py_int_of_str content) (fun _ => Ok 0)
  else Ok 0.

Definition save_highscore (score : Z) (disk : File) : result File :=
  match disk with
  | Denied => Raise OSError
  | _ => Ok (Text (py_str_of_int score))
  end.

(* ------------------------------------------------------------------ *)
(** ** Constants and module globals *)

Definition SCREEN_WIDTH : Z := 288.
Definition SCREEN_HEIGHT : Z := 512.
Definition GRAVITY : float := 0.2425%float.
(** [FLAP_STRENGTH] is the integer [-6]; it is only ever stored in the float
    variable [bird_movement] and added to [GRAVITY], where it acts as the
    float [-6.0]. *)
Definition FLAP_STRENGTH : float := (-6)%float.
Definition PIPE_GAP : Z := 100.
Definition PIPE_FREQ : Z := 1500.
Definition volume_change : float := 0.05%float.

(** The downloaded sprites; only their sizes matter to the program. *)
Record Assets : Type := mkAssets {
  bird_img : Surface;
  base_img : Surface;
  pipe_img : Surface;
  pipe_flipped : Surface
}.

(** The audio device: whether the music stream plays, the volume of the
    music stream, and the volume shared by the three effect sounds. *)
Record Audio : Type := mkAudio {
  music_playing : bool;
  mixer_music_volume : float;
  sounds_volume : float
}.

Definition Pipe : Type := (Rect * Rect)%type.

Record State : Type := mkState {
  assets : Assets;
  bird : Rect;
  bird_movement : float;
  pipes : list Pipe;
  base_x : Z;
  score : Z;
  game_active : bool;
  high_score : Z;
  music_volume : float;
  sfx_volume : float;
  show_volume_ui : bool;
  running : bool;
  (* the world outside the module *)
  audio : Audio;
  disk : File;
  draws : nat;            (* calls made to [random.randint] so far *)
  stdout : list string
}.

Definition set_bird (s : State) (v : Rect) : State :=
  mkState (assets s) v (bird_movement s) (pipes s) (base_x s) (score s)
    (game_active s) (high_score s) (music_volume s) (sfx_volume s)
    (show_volume_ui s) (running s) (audio s) (disk s) (draws s) (stdout s).
Definition set_bird_movement (s : State) (v : float) : State :=
  mkState (assets s) (bird s) v (pipes s) (base_x s) (score s)
    (game_active s) (high_score s) (music_volume s) (sfx_volume s)
    (show_volume_ui s) (running s) (audio s) (disk s) (draws s) (stdout s).
Definition set_pipes (s : State) (v : list Pipe) : State :=
  mkState (assets s) (bird s) (bird_movement s) v (base_x s) (score s)
    (game_active s) (high_score s) (music_volume s) (sfx_volume s)
    (show_volume_ui s) (running s) (audio s) (disk s) (draws s) (stdout s).
Definition set_base_x (s : State) (v : Z) : State :=
  mkState (assets s) (bird s) (bird_movement s) (pipes s) v (score s)
    (game_active s) (high_score s) (music_volume s) (sfx_volume s)
    (show_volume_ui s) (running s) (audio s) (disk s) (draws s) (stdout s).
Definition set_score (s : State) (v : Z) : State :=
  mkState (assets s) (bird s) (bird_movement s) (pipes s) (base_x s) v
    (game_active s) (high_score s) (music_volume s) (sfx_volume s)
    (show_volume_ui s) (running s) (audio s) (disk s) (draws s) (stdout s).
Definition set_game_active (s : State) (v : bool) : State :=
  mkState (assets s) (bird s) (bird_movement s) (pipes s) (base_x s) (score s)
    v (high_score s) (music_volume s) (sfx_volume s)
    (show_volume_ui s) (running s) (audio s) (disk s) (draws s) (stdout s).
Definition set_high_score (s : State) (v : Z) : State :=
  mkState (assets s) (bird s) (bird_movement s) (pipes s) (base_x s) (score s)
    (game_active s) v (music_volume s) (sfx_volume s)
    (show_volume_ui s) (running s) (audio s) (disk s) (draws s) (stdout s).
Definition set_music_volume (s : State) (v : float) : State :=
  mkState (assets s) (bird s) (bird_movement s) (pipes s) (base_x s) (score s)
    (game_active s) (high_score s) v (sfx_volume s)
    (show_volume_ui s) (running s) (audio s) (disk s) (draws s) (stdout s).
Definition set_sfx_volume (s : State) (v : float) : State :=
  mkState (assets s) (bird s) (bird_movement s) (pipes s) (base_x s) (score s)
    (game_active s) (high_score s) (music_volume s) v
    (show_volume_ui s) (running s) (audio s) (disk s) (draws s) (stdout s).
Definition set_show_volume_ui (s : State) (v : bool) : State :=
  mkState (assets s) (bird s) (bird_movement s) (pipes s) (base_x s) (score s)
    (game_active s) (high_score s) (music_volume s) (sfx_volume s)
    v (running s) (audio s) (disk s) (draws s) (stdout s).
Definition set_running (s : State) (v : bool) : State :=
  mkState (assets s) (bird s) (bird_movement s) (pipes s) (base_x s) (score s)
    (game_active s) (high_score s) (music_volume s) (sfx_volume s)
    (show_volume_ui s) v (audio s) (disk s) (draws s) (stdout s).
Definition set_audio (s : State) (v : Audio) : State :=
  mkState (assets s) (bird s) (bird_movement s) (pipes s) (base_x s) (score s)
    (game_active s) (high_score s) (music_volume s) (sfx_volume s)
    (show_volume_ui s) (running s) v (disk s) (draws s) (stdout s).
Definition set_disk (s : State) (v : File) : State :=
  mkState (assets s) (bird s) (bird_movement s) (pipes s) (base_x s) (score s)
    (game_active s) (high_score s) (music_volume s) (sfx_volume s)
    (show_volume_ui s) (running s) (audio s) v (draws s) (stdout s).
Definition set_draws (s : State) (v : nat) : State :=
  mkState (assets s) (bird s) (bird_movement s) (pipes s) (base_x s) (score s)
    (game_active s) (high_score s) (music_volume s) (sfx_volume s)
    (show_volume_ui s) (running s) (audio s) (disk s) v (stdout s).

(** [pygame.mixer.music.set_volume(v)] and the three [Sound.set_volume(v)]. *)
Definition mixer_music_set_volume (a : Audio) (v : float) : Audio :=
  mkAudio (music_playing a) v (sounds_volume a).
Definition sounds_set_volume (a : Audio) (v : float) : Audio :=
  mkAudio (music_playing a) (mixer_music_volume a) v.

(* ------------------------------------------------------------------ *)
(** ** Events *)

Inductive Key : Type :=
| K_SPACE | K_r | K_v | K_m | K_n | K_k | K_l | K_other.

(** What [pygame.event.get()] hands to the loop.  [SPAWNPIPE] is the timer
    event set up by [pygame.time.set_timer(SPAWNPIPE, PIPE_FREQ)]. *)
Inductive Event : Type :=
| QUIT
| KEYDOWN (key : Key)
| SPAWNPIPE
| OTHER.

(* ------------------------------------------------------------------ *)
(** ** The functions of the module *)

Section Game.

(** [randint n] is what the [n]-th call of [random.randint(150, 300)]
    returns. *)
Variable randint : nat -> Z.

Definition reset_game (s : State) : State :=
  let s := set_bird s (get_rect_center (bird_img (assets s)) 50 (SCREEN_HEIGHT / 2)) in
  let s := set_bird_movement s 0%float in
  let s := set_pipes s [] in
  let s := set_base_x s 0 in
  let s := set_score s 0 in
  set_game_active s true.

Definition create_pipe (s : State) : Pipe * State :=
  let height := randint (draws s) in
  let s' := set_draws s (S (draws s)) in
  let bottom_pipe := get_rect_midtop (pipe_img (assets s)) (SCREEN_WIDTH + 50) height in
  let top_pipe :=
    get_rect_midbottom (pipe_flipped (assets s)) (SCREEN_WIDTH + 50) (height - PIPE_GAP) in
  ((top_pipe, bottom_pipe), s').

(** The condition and the element expression of the list comprehension. *)
Definition on_screen (p : Pipe) : bool := right (fst p) >? -50.
Definition shift_pipe (p : Pipe) : Pipe := (move (fst p) (-3) 0, move (snd p) (-3) 0).

Definition move_pipes (pipes_list : list Pipe) : list Pipe :=
  map shift_pipe (filter on_screen pipes_list).

(** The [for] loop of [check_collision], with its early [return True]. *)
Fixpoint hits_pipe (b : Rect) (pipes_list : list Pipe) : bool :=
  match pipes_list with
  | [] => false
  | (top_pipe, bottom_pipe) :: rest =>
      if colliderect b top_pipe || colliderect b bottom_pipe then true
      else hits_pipe b rest
  end.

Definition check_collision (s : State) (pipes_list : list Pipe) : bool :=
  if hits_pipe (bird s) pipes_list then true
  else if (top (bird s) <=? -50)
          || (bottom (bird s) >=? SCREEN_HEIGHT - get_height (base_img (assets s)))
       then true
       else false.

(** Lines 249-267: the volume keys, read while the overlay is shown. *)
Definition adjust_volume (pressed_key : Key) (s : State) : State :=
  match pressed_key with
  | K_m =>
      let s := set_music_volume s (py_min 1 (music_volume s + volume_change)) in
      set_audio s (mixer_music_set_volume (audio s) (music_volume s))
  | K_n =>
      let s := set_music_volume s (py_max 0 (music_volume s - volume_change)) in
      set_audio s (mixer_music_set_volume (audio s) (music_volume s))
  | K_k =>
      let s := set_sfx_volume s (py_min 1 (sfx_volume s + volume_change)) in
      set_audio s (sounds_set_volume (audio s) (sfx_volume s))
  | K_l =>
      let s := set_sfx_volume s (py_max 0 (sfx_volume s - volume_change)) in
      set_audio s (sounds_set_volume (audio s) (sfx_volume s))
  | _ => s
  end.

(** Lines 231-267: the body of [for event in pygame.event.get()]. *)
Definition handle_event (event : Event) (s : State) : State :=
  let s := match event with QUIT => set_running s false | _ => s end in
  let s :=
    if game_active s && negb (show_volume_ui s) then
      let s := match event with
               | KEYDOWN K_SPACE => set_bird_movement s FLAP_STRENGTH
               | _ => s
               end in
      match event with
      | SPAWNPIPE =>
          let '(p, s) := create_pipe s in
          set_pipes s (pipes s ++ [p])
      | _ => s
      end
    else if negb (game_active s) && negb (show_volume_ui s) then
      match event with
      | KEYDOWN K_r => reset_game s
      | _ => s
      end
    else s in
  match event with
  | KEYDOWN key =>
      let s := match key with
               | K_v => set_show_volume_ui s (negb (show_volume_ui s))
               | _ => s
               end in
      if show_volume_ui s then adjust_volume key s else s
  | _ => s
  end.

Definition handle_events (events : list Event) (s : State) : State :=
  fold_left (fun s event => handle_event event s) events s.

(** Lines 270-271. *)
Definition apply_gravity (s : State) : result State :=
  let s := set_bird_movement s (bird_movement s + GRAVITY)%float in
  d <- py_int_of_float (bird_movement s) ;;
  Ok (set_bird s (set_centery (bird s) (centery (bird s) + d))).

(** Lines 277-279. *)
Definition scroll_base (s : State) : State :=
  let s := set_base_x s (base_x s - 1) in
  if base_x s <=? - SCREEN_WIDTH then set_base_x s 0 else s.

(** Lines 283-287. *)
Definition on_collision (s : State) : result State :=
  let s := set_game_active s false in
  if score s >? high_score s then
    let s := set_high_score s (score s) in
    d <- save_highscore (high_score s) (disk s) ;;
    Ok (set_disk s d)
  else Ok s.

(** Lines 289-293. *)
Definition score_pipes (b : Rect) (pipes_list : list Pipe) (score : Z) : Z :=
  fold_left (fun score pipe =>
               if centerx (fst pipe) =? centerx b then score + 1 else score)
            pipes_list score.

(** Lines 269-293: the part of an iteration that follows the event loop. *)
Definition update (s : State) : result State :=
  if game_active s && negb (show_volume_ui s) then
    s <- apply_gravity s ;;
    let s := set_pipes s (move_pipes (pipes s)) in
    let s := scroll_base s in
    let collision_detected := check_collision s (pipes s) in
    s <- (if collision_detected then on_collision s else Ok s) ;;
    Ok (set_score s (score_pipes (bird s) (pipes s) (score s)))
  else Ok s.

(** One iteration of [while running], given the events of the queue. *)
Definition frame (events : list Event) (s : State) : result State :=
  update (handle_events events s).

(** The main loop, given what the queue holds at each iteration. *)
Fixpoint main_loop (queue : list (list Event)) (s : State) : result State :=
  match queue with
  | [] => Ok s
  | events :: rest =>
      if running s then s' <- frame events s ;; main_loop rest s'
      else Ok s
  end.

(* ------------------------------------------------------------------ *)
(** ** Start-up (lines 184-223) *)

(** What the machine offers when the module is run. *)
Record Env : Type := mkEnv {
  music_load_ok : bool;      (* [pygame.mixer.music.load] finds and reads bg.ogg *)
  music_play_ok : bool;      (* [pygame.mixer.music.play] succeeds *)
  fetched : result Assets;   (* outcome of the downloads of lines 212-220 *)
  highscore_file : File
}.

(** Reading a module-level name; a name that was only annotated
    ([music_volume: float], line 67) is not bound. *)
Definition lookup_name {A : Type} (binding : option A) : result A :=
  match binding with
  | Some v => Ok v
  | None => Raise NameError
  end.

(** pygame's defaults: no music playing, full volume everywhere. *)
Definition default_audio : Audio := mkAudio false 1 1.

Definition info_message : string :=
  "Info: Background music not loaded (optional) - game will continue without music".

(** Lines 187-195.  Takes and returns the binding of [music_volume]. *)
Definition init_music (e : Env) (music_volume : option float)
  : option float * Audio * list string :=
  let handler (a : Audio) := (Some 0%float, a, [info_message]) in
  if music_load_ok e then
    match lookup_name music_volume with
    | Raise _ => handler default_audio
    | Ok v =>
        let a := mixer_music_set_volume default_audio v in
        if music_play_ok e
        then (music_volume, mkAudio true (mixer_music_volume a) (sounds_volume a), [])
        else handler a
    end
  else handler default_audio.

Definition startup (e : Env) : result State :=
  let music_volume : option float := None in                      (* line 67 *)
  let '(music_volume, au, out) := init_music e music_volume in    (* 187-195 *)
  hs <- load_highscore (highscore_file e) ;;                      (* 206 *)
  let music_volume : option float := Some 0.4%float in            (* 207 *)
  a <- fetched e ;;                                               (* 212-220 *)
  let a := mkAssets (bird_img a) (base_img a) (pipe_img a) (flip (pipe_img a)) in
  mv <- lookup_name music_volume ;;
  Ok (mkState a
        (get_rect_center (bird_img a) 50 (SCREEN_HEIGHT / 2))     (* 223 *)
        0%float [] 0 0 true hs mv 0.5%float false true
        au (highscore_file e) 0%nat out).

(** The whole program: start-up, then the loop. *)
Definition program (e : Env) (queue : list (list Event)) : result State :=
  s <- startup e ;; main_loop queue s.

(* ------------------------------------------------------------------ *)
(** ** Ghost labels for obstacle pairs

    The program keeps no identity for a pair: each tick replaces every tuple
    by a shifted copy.  To speak about one pair over its lifetime, a ghost
    component runs beside the state.  It labels each pair with the number of
    its spawn, carries the labels through the same filter and shift as
    [move_pipes], and logs the label of every pair that the scoring loop
    counts.  The ghost reads the state and never writes it. *)

Record Ghost : Type := mkGhost {
  tagged : list (nat * Pipe);   (* the field, each pair with its label *)
  next_id : nat;                (* the label of the next spawn *)
  passed_ids : list nat         (* labels counted by the scoring loop in this run *)
}.

Definition ghost0 : Ghost := mkGhost [] 0%nat [].

(** [s] is the state before [handle_event event]. *)
Definition ghost_event (event : Event) (s : State) (g : Ghost) : Ghost :=
  if game_active s && negb (show_volume_ui s) then
    match event with
    | SPAWNPIPE =>
        mkGhost (tagged g ++ [(next_id g, fst (create_pipe s))])
                (S (next_id g)) (passed_ids g)
    | _ => g
    end
  else if negb (game_active s) && negb (show_volume_ui s) then
    match event with
    | KEYDOWN K_r => mkGhost [] (next_id g) []
    | _ => g
    end
  else g.

Fixpoint ghost_events (events : list Event) (s : State) (g : Ghost) : Ghost :=
  match events with
  | [] => g
  | event :: rest => ghost_events rest (handle_event event s) (ghost_event event s g)
  end.

Definition scores_now (b : Rect) (t : nat * Pipe) : bool :=
  centerx (fst (snd t)) =? centerx b.

(** [move_pipes] on the labelled field: the same filter, the same shift. *)
Definition move_tagged (tg : list (nat * Pipe)) : list (nat * Pipe) :=
  map (fun t => (fst t, shift_pipe (snd t)))
      (filter (fun t => on_screen (snd t)) tg).

(** [s] is the state before [update], [s'] the state after it. *)
Definition ghost_update (s s' : State) (g : Ghost) : Ghost :=
  if game_active s && negb (show_volume_ui s) then
    let moved := move_tagged (tagged g) in
    mkGhost moved (next_id g)
            (passed_ids g ++ map fst (filter (scores_now (bird s')) moved))
  else g.

(** What ties the ghost to the state: the labelled field erases to [pipes];
    the next label is the number of draws made, one per spawn; labels in the
    field are distinct and older than [next_id]; the log has no repetition,
    counts what [score] counts, and a logged pair still in the field is level
    with the bird or behind it. *)
Definition ghost_inv (s : State) (g : Ghost) : Prop :=
  map snd (tagged g) = pipes s /\
  next_id g = draws s /\
  NoDup (map fst (tagged g)) /\
  (forall i, In i (map fst (tagged g)) -> (i < next_id g)%nat) /\
  (forall i, In i (passed_ids g) -> (i < next_id g)%nat) /\
  NoDup (passed_ids g) /\
  score s = Z.of_nat (List.length (passed_ids g)) /\
  (forall t, In t (tagged g) -> In (fst t) (passed_ids g) ->
             centerx (fst (snd t)) <= centerx (bird s)).

Definition ghost_frame (events : list Event) (sg : State * Ghost)
  : result (State * Ghost) :=
  let s1 := handle_events events (fst sg) in
  let g1 := ghost_events events (fst sg) (snd sg) in
  s2 <- update s1 ;;
  Ok (s2, ghost_update s1 s2 g1).

Fixpoint ghost_main_loop (queue : list (list Event)) (sg : State * Ghost)
  : result (State * Ghost) :=
  match queue with
  | [] => Ok sg
  | events :: rest =>
      if running (fst sg) then sg' <- ghost_frame events sg ;; ghost_main_loop rest sg'
      else Ok sg
  end.

(* ------------------------------------------------------------------ *)
(** ** Auxiliary notions used to state the properties *)

(** [n] ticks of gravity alone, without any flap. *)
Fixpoint fall (n : nat) (s : State) : result State :=
  match n with
  | O => Ok s
  | S k => s' <- apply_gravity s ;; fall k s'
  end.

(** The velocity after [n] ticks of gravity from velocity [v], and the sum
    of the truncated velocities on the way. *)
Fixpoint drift (n : nat) (v : float) : result (float * Z) :=
  match n with
  | O => Ok (v, 0)
  | S k =>
      let v1 := (v + GRAVITY)%float in
      d <- py_int_of_float v1 ;;
      r <- drift k v1 ;;
      Ok (fst r, d + snd r)
  end.

(** The collision test of an active tick whose gravity step moves the bird
    by [d]: it reads the moved bird and the moved field. *)
Definition hit_after (s : State) (d : Z) : bool :=
  check_collision (set_bird s (set_centery (bird s) (centery (bird s) + d)))
                  (move_pipes (pipes s)).

(** Order-preserving selection of elements. *)
Inductive subsequence {A : Type} : list A -> list A -> Prop :=
| subsequence_nil : subsequence [] []
| subsequence_skip x l1 l2 : subsequence l1 l2 -> subsequence l1 (x :: l2)
| subsequence_keep x l1 l2 : subsequence l1 l2 -> subsequence (x :: l1) (x :: l2).

(** Two rectangles of positive size overlap on more than an edge. *)
Definition strict_overlap (a b : Rect) : Prop :=
  left a < right b /\ top a < bottom b /\ right a > left b /\ bottom a > top b.

Definition positive_size (r : Rect) : Prop := 0 < rw r /\ 0 < rh r.

(** The volume range and the clamp of the settings panel. *)
Definition in_unit_range (v : float) : bool :=
  PrimFloat.leb 0 v && PrimFloat.leb v 1.

Definition clamp (x : float) : float := py_max 0 (py_min 1 x).

(** Every value that repeated steps of [volume_change], up or down, can
    produce from the initial volumes [0.4] and [0.5] in binary64. *)
Definition volume_levels : list float :=
  [0; 0x1p-56; 0x1.4p-54; 0x1.999999999996cp-5; 0x1.999999999999ap-5;
   0x1.999999999999cp-5; 0x1.99999999999a4p-5; 0x1.9999999999983p-4;
   0x1.999999999999ap-4; 0x1.999999999999bp-4; 0x1.999999999999fp-4;
   0x1.3333333333328p-3; 0x1.3333333333334p-3; 0x1.3333333333336p-3;
   0x1.999999999998ep-3; 0x1.999999999999ap-3; 0x1.999999999999cp-3;
   0x1.ffffffffffff4p-3; 0x1p-2; 0x1.0000000000001p-2;
   0x1.333333333332dp-2; 0x1.3333333333333p-2; 0x1.3333333333334p-2;
   0x1.666666666666p-2; 0x1.6666666666666p-2; 0x1.6666666666667p-2;
   0x1.9999999999993p-2; 0x1.9999999999999p-2; 0x1.999999999999ap-2;
   0x1.cccccccccccc6p-2; 0x1.cccccccccccccp-2; 0x1.ccccccccccccdp-2;
   0x1.ffffffffffff9p-2; 0x1.fffffffffffffp-2; 0x1p-1;
   0x1.1999999999996p-1; 0x1.1999999999999p-1; 0x1.199999999999ap-1;
   0x1.333333333333p-1; 0x1.3333333333333p-1; 0x1.3333333333334p-1;
   0x1.4cccccccccccap-1; 0x1.4cccccccccccdp-1; 0x1.4cccccccccccep-1;
   0x1.6666666666664p-1; 0x1.6666666666667p-1; 0x1.6666666666668p-1;
   0x1.7fffffffffffep-1; 0x1.8000000000001p-1; 0x1.8000000000002p-1;
   0x1.9999999999998p-1; 0x1.999999999999bp-1; 0x1.999999999999cp-1;
   0x1.b333333333332p-1; 0x1.b333333333335p-1; 0x1.b333333333336p-1;
   0x1.cccccccccccccp-1; 0x1.ccccccccccccfp-1; 0x1.cccccccccccdp-1;
   0x1.e666666666666p-1; 0x1.e666666666669p-1; 0x1.e66666666666ap-1; 1]%float.

Definition volumes_ok (s : State) : Prop :=
  In (music_volume s) volume_levels /\ In (sfx_volume s) volume_levels.

(** *** The specification's reading of two operations, for comparison *)

(** Closed-interval overlap: rectangles that share an edge count. *)
Definition touching_overlap (a b : Rect) : bool :=
  (left a <=? right b) && (left b <=? right a) &&
  (top a <=? bottom b) && (top b <=? bottom a).

(** The collision predicate as the specification words it. *)
Definition spec_check (avatarBox : Rect) (field : list Pipe)
           (screenHeight groundHeight : Z) : bool :=
  existsb (fun p => touching_overlap avatarBox (fst p)
                    || touching_overlap avatarBox (snd p)) field
  || (top avatarBox <=? -50)
  || (bottom avatarBox >=? screenHeight - groundHeight).

(** Where the specification puts the two edges of the gap. *)
Definition spec_top_box_bottom (gapCenterY gapHeight : Z) : Z :=
  gapCenterY - gapHeight / 2.
Definition spec_bottom_box_top (gapCenterY gapHeight : Z) : Z :=
  gapCenterY + gapHeight / 2.

(** *** Sample data *)

(** Sprites of the sizes 34x24 (bird), 336x112 (base) and 52x320 (pipe). *)
Definition sprites : Assets :=
  mkAssets (mkSurface 34 24) (mkSurface 336 112) (mkSurface 52 320) (mkSurface 52 320).

(** A machine without bg.ogg and without a score file. *)
Definition quiet_env : Env := mkEnv false false (Ok sprites) Missing.

(** The same machine with pipes 54 wide instead of 52. *)
Definition wide_env : Env :=
  mkEnv false false
        (Ok (mkAssets (mkSurface 34 24) (mkSurface 336 112)
                      (mkSurface 54 320) (mkSurface 54 320)))
        Missing.

(** A machine on which the music file loads and would play. *)
Definition music_env : Env := mkEnv true true (Ok sprites) Missing.

(** The state right after start-up on [quiet_env]. *)
Definition fresh : State :=
  mkState sprites (mkRect 33 244 34 24) 0%float [] 0 0 true 0
          0.4%float 0.5%float false true default_audio Missing 0%nat
          [info_message].

(** The bird at its start position resting on the top edge of a bottom
    pipe: the bird's bottom and the pipe's top are both at 268. *)
Definition resting : State :=
  set_pipes fresh [(mkRect 42 (-152) 52 320, mkRect 42 268 52 320)].

(** A pair whose top box ends at x = -49. *)
Definition leaving_pair : Pipe := (mkRect (-101) (-220) 52 320, mkRect (-101) 200 52 320).

(** A run of 186 iterations at 60 per second: the spawn timer fires in
    iterations 1 and 91, the player flaps every 30 iterations from 33 on. *)
Definition two_pipe_run : list (list Event) :=
  map (fun i =>
         (if (i =? 1)%nat || (i =? 91)%nat then [SPAWNPIPE] else [])
         ++ (if ((i mod 30) =? 3)%nat && (33 <=? i)%nat then [KEYDOWN K_SPACE] else []))
      (seq 1 186).

(** The two draws of that run. *)
Definition two_pipe_draws (n : nat) : Z :=
  match n with
  | O => 264
  | _ => 150
  end.

End Game.

(** The overlay opened on the fresh state. *)
Definition paused : State := set_show_volume_ui fresh true.

(** The state of [two_pipe_run] before its last iteration, and after it. *)
Definition before_crash : State :=
  Eval vm_compute in
    match program two_pipe_draws quiet_env (firstn 185 two_pipe_run) with
    | Ok s => s
    | Raise _ => fresh
    end.

Definition after_crash : State :=
  Eval vm_compute in
    match program two_pipe_draws quiet_env two_pipe_run with
    | Ok s => s
    | Raise _ => fresh
    end.

(* ------------------------------------------------------------------ *)
(** ** Notions for the further properties *)

(** The shape of a pair made from the pipe sprite [sf]: both boxes have the
    sprite's size and the same x, the gap between them is [PIPE_GAP], and
    the pair has been moved some number of times from the spawn column. *)
Definition pipe_shape (sf : Surface) (p : Pipe) : Prop :=
  rw (fst p) = get_width sf /\ rh (fst p) = get_height sf /\
  rw (snd p) = get_width sf /\ rh (snd p) = get_height sf /\
  rx (fst p) = rx (snd p) /\
  top (snd p) - bottom (fst p) = PIPE_GAP /\
  exists moves : nat,
    centerx (fst p) = SCREEN_WIDTH + 50 - 3 * Z.of_nat moves.

(** [p] is not to the right of [q]. *)
Definition left_of (p q : Pipe) : Prop := centerx (fst p) <= centerx (fst q).

(** *** Drawing the overlay (lines 169-177)

    What [draw_volume_ui] puts on the screen: a filled rectangle and six
    lines of text.  The two percentages are [int(volume*100)]. *)
Inductive DrawOp : Type :=
| FillRect (color : Z * Z * Z) (area : Z * Z * Z * Z)
| DrawText (text : string) (x y : Z).

Definition volume_percent (v : float) : result Z := py_int_of_float (v * 100).

Definition draw_volume_ui (s : State) : result (list DrawOp) :=
  m <- volume_percent (music_volume s) ;;
  f <- volume_percent (sfx_volume s) ;;
  Ok [FillRect (0, 0, 0) (20, 150, SCREEN_WIDTH - 40, 100);
      DrawText "Volume Settings" 90 160;
      DrawText ("Music Volume: " ++ py_str_of_int m ++ "%") 50 190;
      DrawText ("SFX Volume: " ++ py_str_of_int f ++ "%") 50 220;
      DrawText "Use M/N to adjust Music" 50 250;
      DrawText "Use K/L to adjust SFX" 50 280;
      DrawText "Press V to close" 50 310].

(** *** Free flight

    The velocity [k] ticks after the last flap or restart, which left it at
    [v0], and the distance fallen over those ticks: the sum of the truncated
    velocities. *)
Fixpoint velocity_after (k : nat) (v0 : float) : float :=
  match k with
  | O => v0
  | S j => (velocity_after j v0 + GRAVITY)%float
  end.

Definition truncated (v : float) : Z :=
  match py_int_of_float v with
  | Ok d => d
  | Raise _ => 0
  end.

Fixpoint fallen_after (k : nat) (v0 : float) : Z :=
  match k with
  | O => 0
  | S j => fallen_after j v0 + truncated (velocity_after (S j) v0)
  end.

(** What keeps the tick from raising: the score file can be written, the
    sprites have no negative height, and the velocity is that of a free
    flight of at most 98 ticks which, while the game is active, started with
    the bird's bottom edge at a y above -50 and has lasted at most 97 ticks. *)
Definition flight_inv (s : State) : Prop :=
  disk s <> Denied /\
  0 <= get_height (base_img (assets s)) /\
  0 <= get_height (bird_img (assets s)) /\
  rh (bird s) = get_height (bird_img (assets s)) /\
  exists k v0,
    (k <= 98)%nat /\ (v0 = 0%float \/ v0 = FLAP_STRENGTH) /\
    bird_movement s = velocity_after k v0 /\
    (game_active s = true ->
     (k <= 97)%nat /\ -50 < bottom (bird s) /\
     exists b0, -50 < b0 /\ bottom (bird s) = b0 + fallen_after k v0).

(** The state of [two_pipe_run] after 100 iterations, both pairs in the
    field. *)
Definition mid_run : State :=
  Eval vm_compute in
    match program two_pipe_draws quiet_env (firstn 100 two_pipe_run) with
    | Ok s => s
    | Raise _ => fresh
    end.

(* ================================================================== *)
(** * Properties *)

(** ** Rectangles *)

Lemma centerx_move r dx : centerx (move r dx 0) = centerx r + dx.
Proof. unfold centerx, move; simpl; lia. Qed.

Lemma right_move r dx : right (move r dx 0) = right r + dx.
Proof. unfold right, move; simpl; lia. Qed.

Lemma centerx_set_centery r v : centerx (set_centery r v) = centerx r.
Proof. reflexivity. Qed.

Lemma centery_set_centery r v : centery (set_centery r v) = v.
Proof. unfold centery, set_centery; simpl; lia. Qed.

Lemma centery_get_rect_center sf cx cy : centery (get_rect_center sf cx cy) = cy.
Proof. unfold centery, get_rect_center; simpl; lia. Qed.

Lemma colliderect_strict a b :
  positive_size a -> positive_size b ->
  colliderect a b = true <-> strict_overlap a b.
Proof.
  intros [Hwa Hha] [Hwb Hhb].
  unfold colliderect, strict_overlap, left, right, top, bottom.
  destruct (rw a =? 0) eqn:E1; [apply Z.eqb_eq in E1; lia|].
  destruct (rh a =? 0) eqn:E2; [apply Z.eqb_eq in E2; lia|].
  destruct (rw b =? 0) eqn:E3; [apply Z.eqb_eq in E3; lia|].
  destruct (rh b =? 0) eqn:E4; [apply Z.eqb_eq in E4; lia|].
  cbn [orb].
  rewrite !andb_true_iff, !Z.ltb_lt, !Z.gtb_gt.
  lia.
Qed.

(** ** Spawning a pair *)

(** C1 (as the code has it).  The drawn number is the top edge of the bottom
    box, and the bottom edge of the top box lies [PIPE_GAP] above it; the
    pair is centred on x = SCREEN_WIDTH + 50.  The drawn number is thus the
    lower end of the gap, not its centre. *)
Theorem create_pipe_edges (randint : nat -> Z) (s : State) :
  let p := fst (create_pipe randint s) in
  let height := randint (draws s) in
  bottom (fst p) = height - PIPE_GAP /\
  top (snd p) = height /\
  top (snd p) - bottom (fst p) = PIPE_GAP /\
  centerx (fst p) = SCREEN_WIDTH + 50 /\
  centerx (snd p) = SCREEN_WIDTH + 50 /\
  draws (snd (create_pipe randint s)) = S (draws s).
Proof.
  unfold create_pipe, bottom, top, centerx, get_rect_midbottom, get_rect_midtop.
  cbn [fst snd rx ry rw rh draws set_draws].
  unfold PIPE_GAP, SCREEN_WIDTH.
  repeat split; lia.
Qed.

(** C1, the specification's figures fail: with the number 200 drawn and a
    gap of 100 the two edges are at 100 and 200, not at 150 and 250. *)
Lemma create_pipe_gap_below_draw :
  let p := fst (create_pipe (fun _ => 200) fresh) in
  PIPE_GAP = 100 /\
  bottom (fst p) = 100 /\ top (snd p) = 200 /\
  bottom (fst p) <> spec_top_box_bottom 200 PIPE_GAP /\
  top (snd p) <> spec_bottom_box_top 200 PIPE_GAP.
Proof. vm_compute. repeat split; discriminate. Qed.

(** ** Advancing the field *)

Lemma subsequence_filter {A : Type} (f : A -> bool) (l : list A) :
  subsequence (filter f l) l.
Proof.
  induction l as [|x l IH]; simpl.
  - constructor.
  - destruct (f x); now constructor.
Qed.

Lemma subsequence_In {A : Type} (l1 l2 : list A) :
  subsequence l1 l2 -> forall x, In x l1 -> In x l2.
Proof.
  induction 1; intros y Hy; simpl in *; intuition.
Qed.

(** C3 (as the code has it).  [move_pipes] keeps exactly the pairs whose top
    box ended right of -50 before the move, each shifted by 3 to the left,
    in their original order.  After the move a kept pair ends right of
    -53. *)
Theorem move_pipes_prunes_before_shift (pipes_list : list Pipe) :
  (exists kept,
      subsequence kept pipes_list /\
      move_pipes pipes_list = map shift_pipe kept /\
      forall q, In q kept <-> In q pipes_list /\ right (fst q) > -50) /\
  (forall p, In p (move_pipes pipes_list) -> right (fst p) > -53).
Proof.
  split.
  - exists (filter on_screen pipes_list). split; [apply subsequence_filter|].
    split; [reflexivity|].
    intros q. rewrite filter_In. unfold on_screen. rewrite Z.gtb_gt. tauto.
  - intros p Hp. unfold move_pipes in Hp.
    apply in_map_iff in Hp. destruct Hp as [q [<- Hq]].
    apply filter_In in Hq. destruct Hq as [_ Hq].
    unfold on_screen in Hq. apply Z.gtb_gt in Hq.
    unfold shift_pipe; cbn [fst]. rewrite right_move. lia.
Qed.

(** C3, the stated margin fails: a pair whose top box ends at -49 is kept
    and ends at -52 after the move, left of -50.  With pipes 54 wide this
    happens in a game: after 139 iterations of [two_pipe_run] the field
    holds the first pair with its top box ending at -52. *)
Lemma move_pipes_keeps_pair_left_of_margin :
  right (fst leaving_pair) = -49 /\
  (exists p, In p (move_pipes [leaving_pair]) /\ right (fst p) < -50) /\
  (exists s p,
      program two_pipe_draws wide_env (firstn 139 two_pipe_run) = Ok s /\
      game_active s = true /\ In p (pipes s) /\ right (fst p) = -52).
Proof.
  split; [reflexivity|]. split.
  - exists (shift_pipe leaving_pair). split; [left; reflexivity|].
    vm_compute. reflexivity.
  - eexists. eexists. split; [vm_compute; reflexivity|].
    split; [reflexivity|]. split; [left; reflexivity | reflexivity].
Qed.

(** ** Collision *)

Lemma hits_pipe_iff (b : Rect) (pipes_list : list Pipe) :
  hits_pipe b pipes_list = true <->
  exists p, In p pipes_list /\
            (colliderect b (fst p) = true \/ colliderect b (snd p) = true).
Proof.
  induction pipes_list as [|[t bt] l IH]; simpl.
  - split; [discriminate | intros [p [[] _]]].
  - destruct (colliderect b t || colliderect b bt) eqn:E.
    + split; [intros _ | reflexivity].
      exists (t, bt). split; [now left|]. cbn [fst snd].
      apply orb_true_iff in E. exact E.
    + rewrite IH. apply orb_false_iff in E. destruct E as [E1 E2].
      split; intros [p [Hin Hc]].
      * exists p. split; [now right | exact Hc].
      * destruct Hin as [<- | Hin]; [cbn [fst snd] in Hc | exists p; tauto].
        destruct Hc; congruence.
Qed.

(** C5 (as the code has it).  For a bird and pipe boxes of positive size,
    [check_collision] is true exactly when the bird overlaps the top or the
    bottom box of some pair on more than an edge, or its top is at or above
    -50, or its bottom is at or below the ground line.  Rectangles that only
    touch do not collide. *)
Theorem check_collision_iff (s : State) (pipes_list : list Pipe) :
  positive_size (bird s) ->
  (forall p, In p pipes_list -> positive_size (fst p) /\ positive_size (snd p)) ->
  check_collision s pipes_list = true <->
  (exists p, In p pipes_list /\
             (strict_overlap (bird s) (fst p) \/ strict_overlap (bird s) (snd p)))
  \/ top (bird s) <= -50
  \/ bottom (bird s) >= SCREEN_HEIGHT - get_height (base_img (assets s)).
Proof.
  intros Hb Hp. unfold check_collision.
  assert (Hpipes :
    hits_pipe (bird s) pipes_list = true <->
    exists p, In p pipes_list /\
      (strict_overlap (bird s) (fst p) \/ strict_overlap (bird s) (snd p))).
  { rewrite hits_pipe_iff. split; intros [p [Hin Hc]]; exists p; (split; [exact Hin|]);
      destruct (Hp p Hin) as [H1 H2];
      rewrite <- (colliderect_strict _ _ Hb H1), <- (colliderect_strict _ _ Hb H2) in *;
      exact Hc. }
  destruct (hits_pipe (bird s) pipes_list).
  - split; [intros _; left; apply Hpipes; reflexivity | reflexivity].
  - destruct (top (bird s) <=? -50) eqn:Et; cbn [orb].
    + apply Z.leb_le in Et. split; [intros _; right; left; exact Et | reflexivity].
    + apply Z.leb_gt in Et.
      destruct (bottom (bird s) >=? SCREEN_HEIGHT - get_height (base_img (assets s))) eqn:Eb.
      * apply Z.geb_le in Eb. split; [intros _; right; right; lia | reflexivity].
      * rewrite Z.geb_leb in Eb. apply Z.leb_gt in Eb.
        split; [discriminate|].
        intros [H | [H | H]]; [apply Hpipes in H; discriminate | lia | lia].
Qed.

(** C5, touching does not count: the bird at its start position rests on the
    top edge of a bottom pipe (both at y = 268), away from ceiling and
    ground.  The specification's predicate holds, [check_collision] is
    false. *)
Lemma check_collision_ignores_touching :
  bottom (bird resting) = 268 /\
  (exists p, In p (pipes resting) /\ top (snd p) = 268 /\
             touching_overlap (bird resting) (snd p) = true) /\
  spec_check (bird resting) (pipes resting) SCREEN_HEIGHT
             (get_height (base_img (assets resting))) = true /\
  check_collision resting (pipes resting) = false.
Proof.
  split; [reflexivity|]. split; [|split; reflexivity].
  eexists. split; [left; reflexivity|]. split; reflexivity.
Qed.

(** ** Gravity *)

Lemma fall_drift (n : nat) :
  forall s v d,
    drift n (bird_movement s) = Ok (v, d) ->
    exists s', fall n s = Ok s' /\ bird_movement s' = v /\
               centery (bird s') = centery (bird s) + d.
Proof.
  induction n as [|n IH]; intros s v d H; simpl in *.
  - inversion H; subst. exists s. repeat split; lia.
  - unfold apply_gravity. cbn [bird_movement set_bird_movement].
    destruct (py_int_of_float (bird_movement s + GRAVITY)) as [d1|e] eqn:E1;
      cbn [bind] in *; [|discriminate].
    destruct (drift n (bird_movement s + GRAVITY)) as [[v2 d2]|e] eqn:E2;
      cbn [bind fst snd] in H; [|discriminate].
    inversion H; subst.
    destruct (IH (set_bird (set_bird_movement s (bird_movement s + GRAVITY))
                           (set_centery (bird s) (centery (bird s) + d1)))
                 v d2 E2) as [s' [F [Hv Hy]]].
    exists s'. split; [exact F|]. split; [exact Hv|].
    rewrite Hy. cbn [bird set_bird]. rewrite centery_set_centery. lia.
Qed.

Lemma startup_bird (e : Env) (s : State) :
  startup e = Ok s ->
  bird s = get_rect_center (bird_img (assets s)) 50 256 /\
  bird_movement s = 0%float /\ pipes s = [] /\ score s = 0 /\
  music_volume s = 0.4%float /\ sfx_volume s = 0.5%float /\
  music_playing (audio s) = false /\ stdout s = [info_message] /\
  draws s = 0%nat.
Proof.
  unfold startup, init_music. cbn [lookup_name].
  assert (Hm : (if music_load_ok e
                then (Some 0%float, default_audio, [info_message])
                else (Some 0%float, default_audio, [info_message]))
               = (Some 0%float, default_audio, [info_message]))
    by (destruct (music_load_ok e); reflexivity).
  rewrite Hm.
  destruct (load_highscore (highscore_file e)); cbn [bind]; [|discriminate].
  destruct (fetched e); cbn [bind]; [|discriminate].
  intros H. inversion H; subst; clear H. cbn. repeat split.
Qed.

(** C7.  The avatar starts at y = 256 with velocity 0.  One tick of gravity
    without a flap gives velocity 0.2425, whose integer part is 0, so y
    stays 256.  After 25 such ticks the truncated velocities add up to 66
    pixels and y is strictly larger. *)
Theorem gravity_from_rest (e : Env) (s : State) :
  startup e = Ok s ->
  centery (bird s) = 256 /\ bird_movement s = 0%float /\
  (exists s1, apply_gravity s = Ok s1 /\
              bird_movement s1 = 0.2425%float /\
              py_int_of_float (bird_movement s1) = Ok 0 /\
              centery (bird s1) = 256) /\
  (exists s25, fall 25 s = Ok s25 /\ centery (bird s25) = 256 + 66 /\
               centery (bird s25) > 256).
Proof.
  intros H. apply startup_bird in H.
  destruct H as [Hb [Hv _]].
  assert (Hy : centery (bird s) = 256)
    by (rewrite Hb; apply centery_get_rect_center).
  split; [exact Hy|]. split; [exact Hv|]. split.
  - destruct (fall_drift 1 s GRAVITY 0) as [s1 [F [Hv1 Hy1]]].
    { rewrite Hv. vm_compute. reflexivity. }
    exists s1. simpl in F.
    destruct (apply_gravity s) as [s1'|]; cbn [bind] in F; [|discriminate].
    inversion F; subst. split; [reflexivity|]. split; [exact Hv1|].
    split; [rewrite Hv1; vm_compute; reflexivity | lia].
  - destruct (drift 25 0) as [[v d]|] eqn:E; [|vm_compute in E; discriminate].
    destruct (fall_drift 25 s v d) as [s25 [F [_ Hy25]]].
    { rewrite Hv. exact E. }
    exists s25. split; [exact F|]. rewrite Hy25, Hy.
    vm_compute in E. inversion E; subst. split; lia.
Qed.

(** ** The high-score file *)

Lemma is_digit_uint_of_char (c : ascii) (d : uint) :
  is_digit c = false -> uint_of_char c (Some d) = None.
Proof.
  destruct c as [[|] [|] [|] [|] [|] [|] [|] [|]];
    intros H; try reflexivity; vm_compute in H; discriminate.
Qed.

Lemma uint_of_string_foreign (c : ascii) (s : string) :
  In c (list_ascii_of_string s) -> is_digit c = false ->
  NilEmpty.uint_of_string s = None.
Proof.
  intros Hin Hc. induction s as [|a s IH]; simpl in *; [contradiction|].
  destruct Hin as [-> | Hin].
  - destruct (NilEmpty.uint_of_string s); [now apply is_digit_uint_of_char | reflexivity].
  - rewrite (IH Hin). reflexivity.
Qed.

Lemma drop_underscores_keeps (c : ascii) (s : string) :
  In c (list_ascii_of_string s) -> Ascii.eqb c "_" = false ->
  forall b d, drop_underscores b s = Some d -> In c (list_ascii_of_string d).
Proof.
  intros Hin Hc. induction s as [|a s IH]; simpl in *; [contradiction|].
  intros b d H.
  destruct (Ascii.eqb a "_") eqn:Ea.
  - destruct Hin as [-> | Hin]; [congruence|].
    destruct b; [|discriminate]. now apply (IH Hin false).
  - destruct (drop_underscores true s) as [d'|] eqn:Ed; [|discriminate].
    cbn in H. inversion H; subst. simpl.
    destruct Hin as [-> | Hin]; [now left | right; now apply (IH Hin true)].
Qed.

Lemma py_digits_foreign (c : ascii) (s : string) :
  In c (list_ascii_of_string s) -> is_digit c = false -> Ascii.eqb c "_" = false ->
  py_digits s = None.
Proof.
  intros Hin Hd Hu. unfold py_digits.
  destruct (drop_underscores false s) as [d|] eqn:E; [|reflexivity].
  assert (Hc := drop_underscores_keeps c s Hin Hu false d E).
  destruct (max_str_digits <? String.length d)%nat; [reflexivity|].
  unfold NilZero.uint_of_string.
  destruct d; [contradiction|].
  rewrite (uint_of_string_foreign c _ Hc Hd). reflexivity.
Qed.

Lemma lstrip_keeps (c : ascii) (s : string) :
  In c (list_ascii_of_string s) -> is_space c = false ->
  In c (list_ascii_of_string (lstrip s)).
Proof.
  intros Hin Hc. induction s as [|a s IH]; simpl in *; [contradiction|].
  destruct (is_space a) eqn:Ea.
  - destruct Hin as [-> | Hin]; [congruence | now apply IH].
  - exact Hin.
Qed.

Lemma rstrip_keeps (c : ascii) (s : string) :
  In c (list_ascii_of_string s) -> is_space c = false ->
  In c (list_ascii_of_string (rstrip s)).
Proof.
  intros Hin Hc. induction s as [|a s IH]; simpl in *; [contradiction|].
  destruct Hin as [-> | Hin].
  - destruct (rstrip s); [rewrite Hc|]; now left.
  - specialize (IH Hin).
    destruct (rstrip s); [contradiction | now right].
Qed.

Lemma py_int_of_str_foreign (c : ascii) (s : string) :
  In c (list_ascii_of_string s) -> numeric_char c = false ->
  py_int_of_str s = Raise ValueError.
Proof.
  intros Hin Hc. unfold numeric_char in Hc.
  repeat (apply orb_false_iff in Hc; destruct Hc as [Hc ?]).
  assert (Hs : In c (list_ascii_of_string (strip s)))
    by (apply rstrip_keeps; [apply lstrip_keeps|]; assumption).
  unfold py_int_of_str.
  destruct (strip s) as [|a r] eqn:Es; [reflexivity|].
  assert (Hr : Ascii.eqb a c = false -> py_digits r = None).
  { intros Hne. simpl in Hs. destruct Hs as [-> | Hs].
    - rewrite Ascii.eqb_refl in Hne. discriminate.
    - now apply (py_digits_foreign c). }
  destruct (Ascii.eqb a "-") eqn:E1.
  - apply Ascii.eqb_eq in E1. subst a.
    rewrite Hr; [reflexivity | now rewrite Ascii.eqb_sym].
  - destruct (Ascii.eqb a "+") eqn:E2.
    + apply Ascii.eqb_eq in E2. subst a.
      rewrite Hr; [reflexivity | now rewrite Ascii.eqb_sym].
    + rewrite (py_digits_foreign c _ Hs) by assumption. reflexivity.
Qed.

Lemma is_digit_plain (c : ascii) :
  is_digit c = true ->
  is_space c = false /\ Ascii.eqb c "_" = false /\
  Ascii.eqb c "-" = false /\ Ascii.eqb c "+" = false.
Proof.
  destruct c as [[|] [|] [|] [|] [|] [|] [|] [|]];
    intros H; try (vm_compute in H; discriminate); vm_compute; auto.
Qed.


(** *** Strings *)

Lemma append_assoc (a b c : string) : ((a ++ b) ++ c = a ++ b ++ c)%string.
Proof. induction a as [|x a IH]; simpl; [reflexivity | now rewrite IH]. Qed.

Lemma append_nil_r (a : string) : (a ++ "" = a)%string.
Proof. induction a as [|x a IH]; simpl; [reflexivity | now rewrite IH]. Qed.

(** *** White space *)

Lemma lstrip_blank_app (pre t : string) :
  blank pre -> lstrip (pre ++ t) = lstrip t.
Proof.
  unfold blank. induction pre as [|c pre IH]; simpl; intros H; [reflexivity|].
  inversion H; subst. rewrite H2. now apply IH.
Qed.

Lemma lstrip_blank (post : string) : blank post -> lstrip post = EmptyString.
Proof.
  unfold blank. induction post as [|c post IH]; simpl; intros H; [reflexivity|].
  inversion H; subst. rewrite H2. now apply IH.
Qed.

Lemma rstrip_blank (post : string) : blank post -> rstrip post = EmptyString.
Proof.
  unfold blank. induction post as [|c post IH]; simpl; intros H; [reflexivity|].
  inversion H; subst. rewrite (IH H3), H2. reflexivity.
Qed.

Lemma rstrip_app_blank (t post : string) :
  blank post -> rstrip (t ++ post) = rstrip t.
Proof.
  intros H. induction t as [|c t IH]; simpl.
  - now apply rstrip_blank.
  - now rewrite IH.
Qed.

Lemma lstrip_app (t post : string) :
  lstrip t <> EmptyString -> lstrip (t ++ post) = (lstrip t ++ post)%string.
Proof.
  induction t as [|c t IH]; simpl; intros H; [congruence|].
  destruct (is_space c); [now apply IH | reflexivity].
Qed.

Lemma lstrip_empty_blank (t : string) : lstrip t = EmptyString -> blank t.
Proof.
  unfold blank. induction t as [|c t IH]; simpl; intros H; [constructor|].
  destruct (is_space c) eqn:E; [|discriminate].
  constructor; [exact E | now apply IH].
Qed.

Lemma blank_app (t post : string) : blank t -> blank post -> blank (t ++ post).
Proof.
  unfold blank. induction t as [|c t IH]; simpl; intros Ht Hp; [exact Hp|].
  inversion Ht; subst. constructor; [assumption | now apply IH].
Qed.

Lemma strip_padding (pre t post : string) :
  blank pre -> blank post -> strip (pre ++ t ++ post) = strip t.
Proof.
  intros Hpre Hpost. unfold strip. rewrite lstrip_blank_app by exact Hpre.
  destruct (lstrip t) eqn:E.
  - pose proof (lstrip_empty_blank t E) as Ht.
    rewrite (lstrip_blank (t ++ post)) by now apply blank_app.
    reflexivity.
  - rewrite lstrip_app by (rewrite E; discriminate).
    rewrite E. now apply rstrip_app_blank.
Qed.

Lemma lstrip_decompose (s : string) :
  exists pre, blank pre /\ s = (pre ++ lstrip s)%string.
Proof.
  induction s as [|c s [pre [Hb IH]]]; simpl.
  - exists EmptyString. split; [constructor | reflexivity].
  - destruct (is_space c) eqn:E.
    + exists (String c pre). split; [now constructor|].
      simpl. now rewrite <- IH.
    + exists EmptyString. split; [constructor | reflexivity].
Qed.

Lemma rstrip_decompose (s : string) :
  exists post, blank post /\ s = (rstrip s ++ post)%string.
Proof.
  induction s as [|c s [post [Hb IH]]]; simpl.
  - exists EmptyString. split; [constructor | reflexivity].
  - destruct (rstrip s) as [|x r] eqn:E.
    + simpl in IH. subst s.
      destruct (is_space c) eqn:Ec.
      * exists (String c post). split; [now constructor | reflexivity].
      * exists post. split; [exact Hb | reflexivity].
    + exists post. split; [exact Hb|]. simpl. f_equal. exact IH.
Qed.

Lemma strip_decompose (s : string) :
  exists pre post,
    blank pre /\ blank post /\ s = (pre ++ strip s ++ post)%string.
Proof.
  destruct (lstrip_decompose s) as [pre [Hpre E1]].
  destruct (rstrip_decompose (lstrip s)) as [post [Hpost E2]].
  exists pre, post. split; [exact Hpre|]. split; [exact Hpost|].
  unfold strip. now rewrite <- E2.
Qed.

Lemma rstrip_cons (c : ascii) (t : string) :
  rstrip t <> EmptyString -> rstrip (String c t) = String c (rstrip t).
Proof. simpl. destruct (rstrip t); [congruence | reflexivity]. Qed.

(** *** Digits and their value *)

Lemma uint_of_char_digit (c : ascii) (u : uint) :
  is_digit c = true -> exists u', uint_of_char c (Some u) = Some u'.
Proof.
  destruct c as [[|] [|] [|] [|] [|] [|] [|] [|]];
    intros H; try (vm_compute in H; discriminate); eexists; reflexivity.
Qed.

Lemma digits_uint (d : string) :
  digits_only d -> exists u, NilEmpty.uint_of_string d = Some u.
Proof.
  unfold digits_only. induction d as [|c d IH]; simpl; intros H.
  - now exists Nil.
  - inversion H; subst. destruct (IH H3) as [u ->].
    now apply uint_of_char_digit.
Qed.

Lemma uint_digits (d : string) (u : uint) :
  NilEmpty.uint_of_string d = Some u -> digits_only d.
Proof.
  unfold digits_only. revert u. induction d as [|c d IH]; simpl; intros u H.
  - constructor.
  - destruct (NilEmpty.uint_of_string d) as [u'|] eqn:E; [|discriminate].
    constructor; [|now apply (IH u')].
    destruct (is_digit c) eqn:Ec; [reflexivity|].
    rewrite (is_digit_uint_of_char c u' Ec) in H. discriminate.
Qed.

Ltac digit_values :=
  repeat match goal with
         | |- context [digit_value ?c] =>
             let v := eval vm_compute in (digit_value c) in
             change (digit_value c) with v
         end.

Lemma decimal_acc_pos (u : uint) :
  forall acc : positive,
    decimal_acc (Zpos acc) (NilEmpty.string_of_uint u)
    = Zpos (Pos.of_uint_acc u acc).
Proof.
  induction u; intros acc; cbn [NilEmpty.string_of_uint decimal_acc Pos.of_uint_acc];
    try reflexivity;
    match goal with
    | |- decimal_acc ?a _ = Zpos (Pos.of_uint_acc _ ?b) =>
        replace a with (Zpos b) by (digit_values; lia)
    end; apply IHu.
Qed.

Lemma decimal_value_uint (u : uint) :
  decimal_value (NilEmpty.string_of_uint u) = Z.of_uint u.
Proof.
  unfold decimal_value, Z.of_uint.
  induction u; cbn [NilEmpty.string_of_uint decimal_acc Pos.of_uint];
    try reflexivity;
    try (match goal with
         | |- decimal_acc ?a _ = Z.of_N (Npos (Pos.of_uint_acc _ ?b)) =>
             replace a with (Zpos b) by (digit_values; lia)
         end; apply decimal_acc_pos).
  replace (10 * 0 + digit_value "0") with 0 by (digit_values; lia).
  exact IHu.
Qed.

Lemma uint_value (d : string) (u : uint) :
  NilEmpty.uint_of_string d = Some u -> Z.of_uint u = decimal_value d.
Proof.
  intros H. apply NilEmpty.sus in H. subst d. symmetry. apply decimal_value_uint.
Qed.

(** *** Underscores *)

Lemma grouped_head (raw d : string) :
  grouped raw d -> exists c r, raw = String c r /\ is_digit c = true.
Proof. destruct 1; eexists; eexists; split; (reflexivity || eassumption). Qed.

Lemma grouped_digits (raw d : string) :
  grouped raw d -> digits_only d /\ d <> EmptyString.
Proof.
  unfold digits_only.
  induction 1 as [c Hc | c raw d Hc _ [IH _] | c raw d Hc _ [IH _]];
    (split; [|discriminate]); simpl; repeat constructor; assumption.
Qed.

Lemma grouped_plain (d : string) :
  digits_only d -> d <> EmptyString -> grouped d d.
Proof.
  unfold digits_only. induction d as [|c d IH]; simpl; intros H Hn; [congruence|].
  inversion H; subst.
  destruct d as [|c' d'].
  - now apply grouped_last.
  - apply grouped_digit; [assumption|]. apply IH; [assumption | discriminate].
Qed.

Lemma grouped_drop (raw d : string) :
  grouped raw d -> forall b, drop_underscores b raw = Some d.
Proof.
  induction 1 as [c Hc | c raw d Hc _ IH | c raw d Hc _ IH]; intros b;
    destruct (is_digit_plain c Hc) as (_ & Hu & _);
    cbn [drop_underscores]; rewrite Hu.
  - reflexivity.
  - now rewrite IH.
  - cbn [Ascii.eqb Bool.eqb]. now rewrite IH.
Qed.

Lemma drop_grouped (raw : string) :
  forall b d,
    drop_underscores b raw = Some d -> digits_only d ->
    (raw = EmptyString /\ d = EmptyString /\ b = true) \/
    (exists r, raw = String "_" r /\ b = true /\ grouped r d) \/
    grouped raw d.
Proof.
  induction raw as [|c r IH]; intros b d H Hd; cbn [drop_underscores] in H.
  - destruct b; [|discriminate]. inversion H. now left.
  - destruct (Ascii.eqb c "_") eqn:Ec.
    + apply Ascii.eqb_eq in Ec. subst c.
      destruct b; [|discriminate].
      right. left. exists r. split; [reflexivity|]. split; [reflexivity|].
      destruct (IH false d H Hd) as [(_ & _ & Hb) | [(r' & _ & Hb & _) | Hg]];
        [discriminate | discriminate | exact Hg].
    + destruct (drop_underscores true r) as [d'|] eqn:Er; [|discriminate].
      cbn in H. inversion H; subst d. clear H.
      unfold digits_only in Hd. simpl in Hd. inversion Hd; subst.
      right. right.
      destruct (IH true d' Er H2) as [(-> & -> & _) | [(r' & -> & _ & Hg) | Hg]].
      * now apply grouped_last.
      * now apply grouped_underscore.
      * now apply grouped_digit.
Qed.

Lemma rstrip_grouped (raw d : string) : grouped raw d -> rstrip raw = raw.
Proof.
  induction 1 as [c Hc | c raw d Hc Hg IH | c raw d Hc Hg IH].
  - simpl. destruct (is_digit_plain c Hc) as (-> & _). reflexivity.
  - destruct (grouped_head raw d Hg) as (x & r & E & _).
    rewrite rstrip_cons; rewrite IH; [reflexivity | rewrite E; discriminate].
  - destruct (grouped_head raw d Hg) as (x & r & E & _).
    assert (E2 : rstrip (String "_" raw) = String "_" raw)
      by (rewrite rstrip_cons; rewrite IH; [reflexivity | rewrite E; discriminate]).
    rewrite rstrip_cons; rewrite E2; [reflexivity | discriminate].
Qed.

(** *** The parser on the texts that spell an integer *)

Lemma py_digits_grouped (raw d : string) :
  grouped raw d -> (String.length d <= max_str_digits)%nat ->
  py_digits raw = Some (decimal_value d).
Proof.
  intros Hg Hl. unfold py_digits. rewrite (grouped_drop raw d Hg).
  destruct (max_str_digits <? String.length d)%nat eqn:E;
    [apply Nat.ltb_lt in E; lia|].
  destruct (grouped_digits raw d Hg) as [Hd Hn].
  destruct (digits_uint d Hd) as [u Hu].
  unfold NilZero.uint_of_string. destruct d; [congruence|].
  rewrite Hu. cbn [option_map]. now rewrite (uint_value _ u Hu).
Qed.

Lemma py_digits_long (raw d : string) :
  grouped raw d -> (max_str_digits < String.length d)%nat ->
  py_digits raw = None.
Proof.
  intros Hg Hl. unfold py_digits. rewrite (grouped_drop raw d Hg).
  apply Nat.ltb_lt in Hl. now rewrite Hl.
Qed.

Lemma py_digits_inv (x : string) (m : Z) :
  py_digits x = Some m ->
  exists d, grouped x d /\ (String.length d <= max_str_digits)%nat /\
            m = decimal_value d.
Proof.
  unfold py_digits.
  destruct (drop_underscores false x) as [d|] eqn:Ed; [|discriminate].
  destruct (max_str_digits <? String.length d)%nat eqn:El; [discriminate|].
  apply Nat.ltb_ge in El.
  unfold NilZero.uint_of_string. destruct d as [|c d']; [discriminate|].
  destruct (NilEmpty.uint_of_string (String c d')) as [u|] eqn:Eu; [|discriminate].
  cbn [option_map]. intros H. inversion H; subst m.
  exists (String c d'). split; [|split; [exact El | now apply uint_value]].
  destruct (drop_grouped x false _ Ed (uint_digits _ u Eu))
    as [(_ & _ & Hb) | [(r & _ & Hb & _) | Hg]];
    [discriminate | discriminate | exact Hg].
Qed.

Lemma strip_number (raw d : string) : grouped raw d -> strip raw = raw.
Proof.
  intros Hg. unfold strip.
  destruct (grouped_head raw d Hg) as (c & r & E & Hc).
  destruct (is_digit_plain c Hc) as (Hs & _).
  assert (El : lstrip raw = raw) by (rewrite E; simpl; now rewrite Hs).
  rewrite El. now apply (rstrip_grouped raw d).
Qed.

Lemma strip_signed (c : ascii) (raw d : string) :
  is_space c = false -> grouped raw d -> strip (String c raw) = String c raw.
Proof.
  intros Hs Hg. unfold strip. cbn [lstrip]. rewrite Hs.
  destruct (grouped_head raw d Hg) as (x & r & E & _).
  rewrite rstrip_cons; rewrite (rstrip_grouped raw d Hg);
    [reflexivity | rewrite E; discriminate].
Qed.

Lemma py_int_of_str_spells (content : string) (n : Z) :
  spells content n -> py_int_of_str content = Ok n.
Proof.
  intros H. unfold py_int_of_str.
  destruct H as [pre raw post d Hpre Hpost Hg Hl
                | pre raw post d Hpre Hpost Hg Hl
                | pre raw post d Hpre Hpost Hg Hl].
  - rewrite strip_padding by assumption. rewrite (strip_number raw d Hg).
    destruct (grouped_head raw d Hg) as (c & r & E & Hc).
    destruct (is_digit_plain c Hc) as (_ & _ & Hm & Hp).
    rewrite E, Hm, Hp, <- E. now rewrite (py_digits_grouped raw d).
  - change (pre ++ "+" ++ raw ++ post)%string
      with (pre ++ String "+" raw ++ post)%string.
    rewrite strip_padding by assumption.
    rewrite (strip_signed "+" raw d eq_refl Hg).
    cbn [Ascii.eqb Bool.eqb]. cbv iota.
    now rewrite (py_digits_grouped raw d).
  - change (pre ++ "-" ++ raw ++ post)%string
      with (pre ++ String "-" raw ++ post)%string.
    rewrite strip_padding by assumption.
    rewrite (strip_signed "-" raw d eq_refl Hg).
    cbn [Ascii.eqb Bool.eqb]. cbv iota.
    now rewrite (py_digits_grouped raw d).
Qed.

Lemma py_int_of_str_inv (content : string) (n : Z) :
  py_int_of_str content = Ok n -> spells content n.
Proof.
  unfold py_int_of_str.
  destruct (strip_decompose content) as (pre & post & Hpre & Hpost & E).
  destruct (strip content) as [|c r]; [discriminate|].
  rewrite E. clear E.
  destruct (Ascii.eqb c "-") eqn:Em.
  { apply Ascii.eqb_eq in Em. subst c.
    destruct (py_digits r) as [m|] eqn:Er; [|discriminate].
    cbn [option_map]. intros H. inversion H; subst n.
    destruct (py_digits_inv r m Er) as (d & Hg & Hl & ->).
    exact (spells_minus pre r post d Hpre Hpost Hg Hl). }
  destruct (Ascii.eqb c "+") eqn:Ep.
  { apply Ascii.eqb_eq in Ep. subst c.
    destruct (py_digits r) as [m|] eqn:Er; [|discriminate].
    intros H. inversion H; subst n.
    destruct (py_digits_inv r m Er) as (d & Hg & Hl & ->).
    exact (spells_plus pre r post d Hpre Hpost Hg Hl). }
  destruct (py_digits (String c r)) as [m|] eqn:Er; [|discriminate].
  intros H. inversion H; subst n.
  destruct (py_digits_inv _ m Er) as (d & Hg & Hl & ->).
  exact (spells_unsigned pre (String c r) post d Hpre Hpost Hg Hl).
Qed.

(** *** What [str] prints is a text that [int] accepts *)

Lemma string_of_uint_digits (u : uint) : digits_only (NilEmpty.string_of_uint u).
Proof.
  unfold digits_only. induction u; simpl; constructor; (reflexivity || assumption).
Qed.

Lemma spells_digits (d : string) :
  digits_only d -> d <> EmptyString ->
  (String.length d <= max_str_digits)%nat ->
  spells d (decimal_value d) /\ spells (String "-" d) (- decimal_value d).
Proof.
  intros Hd Hn Hl.
  pose proof (grouped_plain d Hd Hn) as Hg.
  assert (Hb : blank EmptyString) by constructor.
  split.
  - pose proof (spells_unsigned EmptyString d EmptyString d Hb Hb Hg Hl) as H.
    cbn [append] in H. now rewrite append_nil_r in H.
  - pose proof (spells_minus EmptyString d EmptyString d Hb Hb Hg Hl) as H.
    cbn [append] in H. now rewrite append_nil_r in H.
Qed.

Lemma spells_uint (u : uint) :
  u <> Nil ->
  (String.length (NilZero.string_of_uint u) <= max_str_digits)%nat ->
  spells (NilZero.string_of_uint u) (Z.of_uint u) /\
  spells (String "-" (NilZero.string_of_uint u)) (- Z.of_uint u).
Proof.
  intros Hn Hl.
  assert (E : NilZero.string_of_uint u = NilEmpty.string_of_uint u)
    by (destruct u; [congruence | ..]; reflexivity).
  rewrite E in Hl |- *. rewrite <- decimal_value_uint.
  apply spells_digits; [apply string_of_uint_digits | | exact Hl].
  destruct u; [congruence | ..]; discriminate.
Qed.

Lemma spells_str (n : Z) :
  (String.length (py_str_of_int (Z.abs n)) <= max_str_digits)%nat ->
  spells (py_str_of_int n) n.
Proof.
  unfold py_str_of_int.
  destruct n as [|p|p]; cbn [Z.abs Z.to_int NilZero.string_of_int]; intros Hl.
  - exact (proj1 (spells_digits "0" (string_of_uint_digits (D0 Nil))
                    ltac:(discriminate) Hl)).
  - pose proof (spells_uint _ (DecimalPos.Unsigned.to_uint_nonnil p) Hl) as [H _].
    pose proof (DecimalZ.of_to (Zpos p)) as Hv. cbn [Z.to_int Z.of_int] in Hv.
    now rewrite Hv in H.
  - pose proof (spells_uint _ (DecimalPos.Unsigned.to_uint_nonnil p) Hl) as [_ H].
    pose proof (DecimalZ.of_to (Zneg p)) as Hv. cbn [Z.to_int Z.of_int] in Hv.
    now rewrite Hv in H.
Qed.

(** C8.  [load_highscore] gives 0 when the file is missing, and on a text
    file it never raises: it gives the integer that the text spells, and 0
    when the text spells none.  A text spells an integer when it is, between
    white space, an optional sign and groups of digits separated by single
    underscores, at most 4300 digits in all.  So "abc" reads as 0, as does
    any text with a character that is no digit, sign, underscore or white
    space, and any number of more than 4300 digits; and what
    [save_highscore] writes for a number of at most 4300 digits reads back
    as that number. *)
Theorem load_highscore_recovers :
  load_highscore Missing = Ok 0 /\
  load_highscore (Text "abc") = Ok 0 /\
  (forall content, exists n, load_highscore (Text content) = Ok n) /\
  (forall content n, spells content n -> load_highscore (Text content) = Ok n) /\
  (forall content, (forall n, ~ spells content n) ->
                   load_highscore (Text content) = Ok 0) /\
  (forall content c, In c (list_ascii_of_string content) ->
                     numeric_char c = false ->
                     load_highscore (Text content) = Ok 0) /\
  (forall pre raw post d,
      blank pre -> blank post -> grouped raw d ->
      (max_str_digits < String.length d)%nat ->
      load_highscore (Text (pre ++ raw ++ post)) = Ok 0) /\
  (forall n, (String.length (py_str_of_int (Z.abs n)) <= max_str_digits)%nat ->
             load_highscore (Text (py_str_of_int n)) = Ok n) /\
  (forall n before after,
      (String.length (py_str_of_int (Z.abs n)) <= max_str_digits)%nat ->
      save_highscore n before = Ok after ->
      load_highscore after = Ok n).
Proof.
  assert (Hraise : forall content e, py_int_of_str content = Raise e ->
                                     load_highscore (Text content) = Ok 0).
  { intros content e H. unfold load_highscore. simpl. now rewrite H. }
  assert (Hok : forall content n, py_int_of_str content = Ok n ->
                                  load_highscore (Text content) = Ok n).
  { intros content n H. unfold load_highscore. simpl. now rewrite H. }
  assert (Hspells : forall content n, spells content n ->
                                      load_highscore (Text content) = Ok n).
  { intros content n H. apply Hok. now apply py_int_of_str_spells. }
  split; [reflexivity|]. split; [reflexivity|].
  split.
  { intros content. destruct (py_int_of_str content) as [n|e] eqn:E.
    - exists n. now apply Hok.
    - exists 0. now apply (Hraise content e). }
  split; [exact Hspells|].
  split.
  { intros content Hn. destruct (py_int_of_str content) as [n|e] eqn:E.
    - exfalso. apply (Hn n). now apply py_int_of_str_inv.
    - now apply (Hraise content e). }
  split.
  { intros content c Hin Hc. apply (Hraise content ValueError).
    now apply (py_int_of_str_foreign c). }
  split.
  { intros pre raw post d Hpre Hpost Hg Hl.
    apply (Hraise _ ValueError). unfold py_int_of_str.
    rewrite strip_padding by assumption. rewrite (strip_number raw d Hg).
    destruct (grouped_head raw d Hg) as (c & r & E & Hc).
    destruct (is_digit_plain c Hc) as (_ & _ & Hm & Hp).
    rewrite E, Hm, Hp, <- E. now rewrite (py_digits_long raw d). }
  split.
  { intros n Hl. apply Hspells. now apply spells_str. }
  intros n before after Hl H.
  destruct before; simpl in H; inversion H; subst;
    apply Hspells; now apply spells_str.
Qed.

Ltac state_cbv :=
  cbv beta iota zeta delta
      [assets bird bird_movement pipes base_x score game_active high_score
       music_volume sfx_volume show_volume_ui running audio disk draws stdout
       set_bird set_bird_movement set_pipes set_base_x set_score
       set_game_active set_high_score set_music_volume set_sfx_volume
       set_show_volume_ui set_running set_audio set_disk set_draws].

Ltac state_simpl :=
  cbn [assets bird bird_movement pipes base_x score game_active high_score
       music_volume sfx_volume show_volume_ui running audio disk draws stdout
       set_bird set_bird_movement set_pipes set_base_x set_score
       set_game_active set_high_score set_music_volume set_sfx_volume
       set_show_volume_ui set_running set_audio set_disk set_draws
       reset_game create_pipe adjust_volume fst snd negb andb orb] in *.

(** ** The settings overlay *)

(** C4 (as the code has it).  While the overlay is shown, handling any event
    leaves the bird, its velocity, the field, the ground offset, the score,
    the mode and the random generator untouched, and the tick part of the
    iteration does nothing.  This includes the spawn timer: a [SPAWNPIPE]
    event handled under the overlay appends no pair. *)
Theorem overlay_suspends (randint : nat -> Z) (s : State) (event : Event) :
  show_volume_ui s = true ->
  let s' := handle_event randint event s in
  bird s' = bird s /\ bird_movement s' = bird_movement s /\
  pipes s' = pipes s /\ base_x s' = base_x s /\ score s' = score s /\
  game_active s' = game_active s /\ high_score s' = high_score s /\
  draws s' = draws s /\
  update s = Ok s.
Proof.
  intros H. unfold update. rewrite H, andb_false_r.
  unfold handle_event.
  destruct event as [|key| |]; state_simpl; rewrite ?H, ?andb_false_r; state_simpl.
  - repeat split.
  - destruct key; state_simpl; rewrite ?H; state_simpl; repeat split.
  - repeat split.
  - repeat split.
Qed.

(** C4, spawns are suspended too: with the overlay opened in the first
    iteration, the spawn event of the second iteration leaves the field
    empty and draws no number; without the overlay it appends a pair. *)
Lemma spawn_dropped_while_overlay_open :
  (exists s, program (fun _ => 200) quiet_env [[KEYDOWN K_v]; [SPAWNPIPE]] = Ok s /\
             game_active s = true /\ show_volume_ui s = true /\
             pipes s = [] /\ draws s = 0%nat) /\
  (exists s, program (fun _ => 200) quiet_env [[]; [SPAWNPIPE]] = Ok s /\
             List.length (pipes s) = 1%nat).
Proof.
  split; eexists; (split; [vm_compute; reflexivity|]); repeat split.
Qed.

(** ** Volumes *)

Ltac find_level := repeat first [left; reflexivity | right]; fail.

Lemma volume_levels_closed :
  Forall (fun v =>
            In (py_min 1 (v + volume_change)) volume_levels /\
            In (py_max 0 (v - volume_change)) volume_levels /\
            in_unit_range v = true /\
            py_min 1 (v + volume_change) = clamp (v + volume_change) /\
            py_max 0 (v - volume_change) = clamp (v - volume_change))
         volume_levels.
Proof.
  unfold volume_levels.
  repeat (apply Forall_cons;
          [ split; [cbv [In]; find_level|];
            split; [cbv [In]; find_level|];
            repeat split; vm_compute; reflexivity |]).
  apply Forall_nil.
Qed.

(** ** The tick *)

Lemma update_idle (s : State) :
  game_active s && negb (show_volume_ui s) = false -> update s = Ok s.
Proof. intros H. unfold update. now rewrite H. Qed.


Lemma update_active_at (s s' : State) (d : Z) :
  game_active s && negb (show_volume_ui s) = true ->
  py_int_of_float (bird_movement s + GRAVITY) = Ok d ->
  update s = Ok s' ->
  let b' := set_centery (bird s) (centery (bird s) + d) in
  let ps' := move_pipes (pipes s) in
  let hit := hit_after s d in
  s' = mkState (assets s) b' (bird_movement s + GRAVITY) ps'
         (if base_x s - 1 <=? - SCREEN_WIDTH then 0 else base_x s - 1)
         (score_pipes b' ps' (score s))
         (if hit then false else game_active s)
         (if hit && (score s >? high_score s) then score s else high_score s)
         (music_volume s) (sfx_volume s) (show_volume_ui s) (running s)
         (audio s)
         (if hit && (score s >? high_score s)
          then Text (py_str_of_int (score s)) else disk s)
         (draws s) (stdout s).
Proof.
  intros Hg. unfold update. rewrite Hg. clear Hg.
  unfold hit_after, apply_gravity, scroll_base, on_collision, check_collision.
  generalize (- SCREEN_WIDTH) as w. intros w.
  destruct s as [a b v ps bx sc ga hs mv sv ui rn au dk dr out].
  state_cbv. intros Ed. rewrite Ed. cbn [bind].
  destruct (bx - 1 <=? w); state_cbv;
    (destruct (hits_pipe (set_centery b (centery b + d)) (move_pipes ps));
     [|destruct ((top (set_centery b (centery b + d)) <=? -50)
               || (bottom (set_centery b (centery b + d)) >=?
                   SCREEN_HEIGHT - get_height (base_img a)))%bool]);
    cbn [bind andb]; state_cbv;
    try (destruct (sc >? hs); state_cbv;
         [destruct dk; cbn [save_highscore bind]; try discriminate|]);
    intros H; inversion H; subst; clear H;
    reflexivity.
Qed.

Lemma update_active (s s' : State) :
  game_active s && negb (show_volume_ui s) = true ->
  update s = Ok s' ->
  exists d, py_int_of_float (bird_movement s + GRAVITY) = Ok d.
Proof.
  intros Hg. unfold update. rewrite Hg. unfold apply_gravity.
  cbn [bird_movement set_bird_movement].
  destruct (py_int_of_float (bird_movement s + GRAVITY)) as [d|];
    cbn [bind]; [|discriminate].
  intros _. now exists d.
Qed.

Ltac event_cbv :=
  cbv beta iota zeta delta
      [handle_event adjust_volume reset_game create_pipe negb andb fst snd
       mixer_music_set_volume sounds_set_volume volumes_ok
       assets bird bird_movement pipes base_x score game_active high_score
       music_volume sfx_volume show_volume_ui running audio disk draws stdout
       set_bird set_bird_movement set_pipes set_base_x set_score
       set_game_active set_high_score set_music_volume set_sfx_volume
       set_show_volume_ui set_running set_audio set_disk set_draws].

Lemma level_up (v : float) :
  In v volume_levels -> In (py_min 1 (v + volume_change)) volume_levels.
Proof.
  intros H. exact (proj1 (proj1 (Forall_forall _ _) volume_levels_closed v H)).
Qed.

Lemma level_down (v : float) :
  In v volume_levels -> In (py_max 0 (v - volume_change)) volume_levels.
Proof.
  intros H.
  exact (proj1 (proj2 (proj1 (Forall_forall _ _) volume_levels_closed v H))).
Qed.

Lemma handle_event_volumes (randint : nat -> Z) (event : Event) (s : State) :
  volumes_ok s -> volumes_ok (handle_event randint event s).
Proof.
  destruct s as [a b v ps bx sc ga hs mv sv ui rn au dk dr out].
  intros [Hm Hs]. cbn [music_volume sfx_volume] in Hm, Hs.
  destruct event as [|[]| |]; destruct ga, ui; event_cbv;
    split; auto using level_up, level_down.
Qed.

Lemma handle_events_volumes (randint : nat -> Z) (events : list Event) :
  forall s, volumes_ok s -> volumes_ok (handle_events randint events s).
Proof.
  induction events as [|e l IH]; intros s H; simpl; [exact H|].
  apply IH. now apply handle_event_volumes.
Qed.

Lemma update_volumes (s s' : State) :
  update s = Ok s' -> volumes_ok s -> volumes_ok s'.
Proof.
  intros H Hv.
  destruct (game_active s && negb (show_volume_ui s)) eqn:Hg.
  - destruct (update_active s s' Hg H) as [d Hd].
    rewrite (update_active_at s s' d Hg Hd H).
    exact Hv.
  - rewrite (update_idle s Hg) in H. inversion H; subst. exact Hv.
Qed.

Lemma main_loop_volumes (randint : nat -> Z) (queue : list (list Event)) :
  forall s s', main_loop randint queue s = Ok s' -> volumes_ok s -> volumes_ok s'.
Proof.
  induction queue as [|events rest IH]; intros s s' H Hv; simpl in H.
  - inversion H; subst. exact Hv.
  - destruct (running s); [|inversion H; subst; exact Hv].
    unfold frame in H.
    destruct (update (handle_events randint events s)) as [s1|] eqn:E;
      cbn [bind] in H; [|discriminate].
    apply (IH s1 s' H).
    apply (update_volumes _ _ E). now apply handle_events_volumes.
Qed.

Lemma startup_volumes (e : Env) (s : State) : startup e = Ok s -> volumes_ok s.
Proof.
  intros H. apply startup_bird in H.
  destruct H as (_ & _ & _ & _ & Hm & Hs & _).
  unfold volumes_ok. rewrite Hm, Hs.
  split; unfold volume_levels; cbv [In]; find_level.
Qed.

(** C9.  At every point of every run -- after any number of completed
    iterations and any further events of the iteration in progress -- the
    music volume and the effects volume lie in [0, 1], and each of the four
    volume keys computes the clamp of the old value moved by 0.05. *)
Theorem volumes_stay_in_range
        (randint : nat -> Z) (e : Env) (queue : list (list Event))
        (events : list Event) (s : State) :
  program randint e queue = Ok s ->
  let s' := handle_events randint events s in
  in_unit_range (music_volume s') = true /\
  in_unit_range (sfx_volume s') = true /\
  music_volume (adjust_volume K_m s') = clamp (music_volume s' + volume_change) /\
  music_volume (adjust_volume K_n s') = clamp (music_volume s' - volume_change) /\
  sfx_volume (adjust_volume K_k s') = clamp (sfx_volume s' + volume_change) /\
  sfx_volume (adjust_volume K_l s') = clamp (sfx_volume s' - volume_change).
Proof.
  intros H s'. unfold program in H.
  destruct (startup e) as [s0|] eqn:E0; cbn [bind] in H; [|discriminate].
  assert (Hv : volumes_ok s').
  { apply handle_events_volumes. apply (main_loop_volumes randint queue s0 s H).
    now apply (startup_volumes e). }
  destruct Hv as [Hm Hs].
  pose proof (proj1 (Forall_forall _ _) volume_levels_closed _ Hm)
    as (_ & _ & Rm & Um & Dm).
  pose proof (proj1 (Forall_forall _ _) volume_levels_closed _ Hs)
    as (_ & _ & Rs & Us & Ds).
  repeat split; assumption.
Qed.

(** ** Ghost labels: no pair is counted twice *)

Lemma move_tagged_erase (tg : list (nat * Pipe)) :
  map snd (move_tagged tg) = move_pipes (map snd tg).
Proof.
  unfold move_tagged, move_pipes.
  induction tg as [|t tg IH]; simpl; [reflexivity|].
  destruct (on_screen (snd t)); simpl; now rewrite IH.
Qed.

Lemma move_tagged_In (tg : list (nat * Pipe)) (t : nat * Pipe) :
  In t (move_tagged tg) ->
  exists p, In (fst t, p) tg /\ snd t = shift_pipe p.
Proof.
  unfold move_tagged. intros H. apply in_map_iff in H.
  destruct H as [[i p] [<- H]]. apply filter_In in H. destruct H as [H _].
  exists p. split; [exact H | reflexivity].
Qed.

Lemma move_tagged_ids (tg : list (nat * Pipe)) (i : nat) :
  In i (map fst (move_tagged tg)) -> In i (map fst tg).
Proof.
  intros H. apply in_map_iff in H. destruct H as [t [<- H]].
  apply move_tagged_In in H. destruct H as [p [H _]].
  apply in_map_iff. now exists (fst t, p).
Qed.

Lemma NoDup_ids_filter (f : nat * Pipe -> bool) (tg : list (nat * Pipe)) :
  NoDup (map fst tg) -> NoDup (map fst (filter f tg)).
Proof.
  induction tg as [|t tg IH]; simpl; intros H; [constructor|].
  inversion H as [|x l Hn Hd]; subst.
  destruct (f t); simpl; [|now apply IH].
  constructor; [|now apply IH].
  intros Hin. apply Hn. apply in_map_iff in Hin.
  destruct Hin as [u [Hu Hin]]. apply filter_In in Hin.
  apply in_map_iff. exists u. tauto.
Qed.

Lemma move_tagged_NoDup (tg : list (nat * Pipe)) :
  NoDup (map fst tg) -> NoDup (map fst (move_tagged tg)).
Proof.
  intros H. unfold move_tagged. rewrite map_map. cbn [fst].
  now apply NoDup_ids_filter.
Qed.

Lemma NoDup_ids_inj (tg : list (nat * Pipe)) (t u : nat * Pipe) :
  NoDup (map fst tg) -> In t tg -> In u tg -> fst t = fst u -> t = u.
Proof.
  induction tg as [|x tg IH]; simpl; intros H Ht Hu E; [contradiction|].
  inversion H as [|y l Hn Hd]; subst.
  destruct Ht as [-> | Ht], Hu as [-> | Hu]; try reflexivity.
  - exfalso. apply Hn. rewrite E. now apply in_map.
  - exfalso. apply Hn. rewrite <- E. now apply in_map.
  - now apply IH.
Qed.

Lemma score_pipes_count (b : Rect) (l : list Pipe) (sc : Z) :
  score_pipes b l sc
  = sc + Z.of_nat (List.length (filter (fun p => centerx (fst p) =? centerx b) l)).
Proof.
  unfold score_pipes. revert sc.
  induction l as [|p l IH]; intros sc; simpl; [lia|].
  rewrite IH. destruct (centerx (fst p) =? centerx b); simpl List.length; lia.
Qed.

Lemma scorers_count (b : Rect) (tg : list (nat * Pipe)) :
  List.length (filter (scores_now b) tg)
  = List.length (filter (fun p => centerx (fst p) =? centerx b) (map snd tg)).
Proof.
  induction tg as [|t tg IH]; simpl; [reflexivity|].
  unfold scores_now at 1.
  destruct (centerx (fst (snd t)) =? centerx b); simpl; now rewrite IH.
Qed.

Lemma ghost_inv_fields (s1 s2 : State) (g : Ghost) :
  pipes s2 = pipes s1 -> score s2 = score s1 -> bird s2 = bird s1 ->
  draws s2 = draws s1 ->
  ghost_inv s1 g -> ghost_inv s2 g.
Proof.
  unfold ghost_inv. intros -> -> -> ->. tauto.
Qed.

Lemma ghost_inv_reset (s2 : State) (n : nat) :
  pipes s2 = [] -> score s2 = 0 -> draws s2 = n ->
  ghost_inv s2 (mkGhost [] n []).
Proof.
  unfold ghost_inv. intros -> -> <-. cbn.
  repeat split; try constructor; try contradiction.
Qed.

Lemma ghost_inv_spawn (s s2 : State) (g : Ghost) (p : Pipe) :
  ghost_inv s g ->
  pipes s2 = pipes s ++ [p] -> score s2 = score s -> bird s2 = bird s ->
  draws s2 = S (draws s) ->
  ghost_inv s2 (mkGhost (tagged g ++ [(next_id g, p)]) (S (next_id g)) (passed_ids g)).
Proof.
  unfold ghost_inv.
  intros (He & Hn & Hnd & Hlt & Hplt & Hpnd & Hsc & Hbehind) -> -> -> ->.
  cbn [tagged next_id passed_ids].
  rewrite !map_app. cbn [map fst snd].
  repeat split.
  - now rewrite He.
  - now rewrite Hn.
  - apply NoDup_app; [exact Hnd | repeat constructor; intros [] |].
    intros i Hi [<- | []]. apply Hlt in Hi. lia.
  - intros i Hi. apply in_app_or in Hi. destruct Hi as [Hi | [<- | []]].
    + apply Hlt in Hi. lia.
    + lia.
  - intros i Hi. apply Hplt in Hi. lia.
  - exact Hpnd.
  - exact Hsc.
  - intros t Ht Hp. apply in_app_or in Ht. destruct Ht as [Ht | [<- | []]].
    + now apply Hbehind.
    + cbn [fst] in Hp. apply Hplt in Hp. lia.
Qed.

Lemma ghost_event_inv (randint : nat -> Z) (event : Event) (s : State) (g : Ghost) :
  ghost_inv s g ->
  ghost_inv (handle_event randint event s) (ghost_event randint event s g).
Proof.
  intros H.
  destruct s as [a b v ps bx sc ga hs mv sv ui rn au dk dr out].
  destruct event as [|[]| |]; destruct ga, ui;
    unfold ghost_event; cbn [game_active show_volume_ui andb negb];
    first [ exact (ghost_inv_fields _ _ g eq_refl eq_refl eq_refl eq_refl H)
          | apply ghost_inv_reset;
            [reflexivity | reflexivity | symmetry; exact (proj1 (proj2 H))]
          | eapply ghost_inv_spawn; [exact H | reflexivity ..] ].
Qed.

Lemma ghost_events_inv (randint : nat -> Z) (events : list Event) :
  forall s g,
    ghost_inv s g ->
    ghost_inv (handle_events randint events s) (ghost_events randint events s g).
Proof.
  induction events as [|e l IH]; intros s g H; simpl; [exact H|].
  apply IH. now apply ghost_event_inv.
Qed.

Lemma ghost_update_inv (s s' : State) (g : Ghost) :
  update s = Ok s' -> ghost_inv s g -> ghost_inv s' (ghost_update s s' g).
Proof.
  intros H Hinv. unfold ghost_update.
  destruct (game_active s && negb (show_volume_ui s)) eqn:Hg.
  2:{ rewrite (update_idle s Hg) in H. inversion H; subst. exact Hinv. }
  destruct (update_active s s' Hg H) as [d Hd].
  rewrite (update_active_at s s' d Hg Hd H). cbv zeta.
  set (b' := set_centery (bird s) (centery (bird s) + d)).
  assert (Hcx : centerx b' = centerx (bird s)) by reflexivity.
  destruct Hinv as (He & Hn & Hnd & Hlt & Hplt & Hpnd & Hsc & Hbehind).
  unfold ghost_inv. cbn [tagged next_id passed_ids pipes score bird draws].
  assert (Hscorers : forall i,
             In i (map fst (filter (scores_now b') (move_tagged (tagged g)))) ->
             exists t, In t (move_tagged (tagged g)) /\ fst t = i /\
                       centerx (fst (snd t)) = centerx b').
  { intros i Hi. apply in_map_iff in Hi. destruct Hi as [t [<- Ht]].
    apply filter_In in Ht. destruct Ht as [Ht Hs].
    exists t. repeat split; [exact Ht|].
    unfold scores_now in Hs. now apply Z.eqb_eq in Hs. }
  assert (Hold : forall t, In t (move_tagged (tagged g)) ->
                           In (fst t) (passed_ids g) ->
                           centerx (fst (snd t)) <= centerx b' - 3).
  { intros t Ht Hp. apply move_tagged_In in Ht. destruct Ht as [p [Hin ->]].
    specialize (Hbehind (fst t, p) Hin Hp). cbn [fst snd] in Hbehind.
    unfold shift_pipe. cbn [fst]. rewrite centerx_move, Hcx. lia. }
  repeat split.
  - now rewrite move_tagged_erase, He.
  - exact Hn.
  - now apply move_tagged_NoDup.
  - intros i Hi. apply Hlt. now apply move_tagged_ids.
  - intros i Hi. apply in_app_or in Hi. destruct Hi as [Hi | Hi].
    + now apply Hplt.
    + apply Hscorers in Hi. destruct Hi as [t [Ht [<- _]]].
      apply Hlt, move_tagged_ids. now apply in_map.
  - apply NoDup_app; [exact Hpnd | |].
    + apply NoDup_ids_filter. now apply move_tagged_NoDup.
    + intros i Hp Hi. apply Hscorers in Hi. destruct Hi as [t [Ht [<- Hc]]].
      specialize (Hold t Ht Hp). lia.
  - rewrite score_pipes_count, length_app, length_map, scorers_count,
      move_tagged_erase, He, Hsc.
    lia.
  - intros t Ht Hp. apply in_app_or in Hp. destruct Hp as [Hp | Hp].
    + specialize (Hold t Ht Hp). lia.
    + apply Hscorers in Hp. destruct Hp as [u [Hu [E Hc]]].
      assert (u = t)
        by (apply (NoDup_ids_inj (move_tagged (tagged g)));
            [now apply move_tagged_NoDup | assumption ..]).
      subst u. lia.
Qed.

Lemma ghost_main_loop_inv (randint : nat -> Z) (queue : list (list Event)) :
  forall s g s',
    main_loop randint queue s = Ok s' ->
    ghost_inv s g ->
    exists g', ghost_main_loop randint queue (s, g) = Ok (s', g') /\ ghost_inv s' g'.
Proof.
  induction queue as [|events rest IH]; intros s g s' H Hinv; simpl in *.
  - inversion H; subst. now exists g.
  - destruct (running s).
    2:{ inversion H; subst. now exists g. }
    unfold frame in H. unfold ghost_frame. cbn [fst snd].
    destruct (update (handle_events randint events s)) as [s1|] eqn:E;
      cbn [bind] in *; [|discriminate].
    apply (IH s1 _ s' H).
    apply (ghost_update_inv _ _ _ E). now apply ghost_events_inv.
Qed.

Lemma ghost_inv_startup (e : Env) (s : State) :
  startup e = Ok s -> ghost_inv s ghost0.
Proof.
  intros H. apply startup_bird in H.
  destruct H as (_ & _ & Hp & Hs & _ & _ & _ & _ & Hd).
  unfold ghost0. now apply ghost_inv_reset.
Qed.

(** C6.  Label every pair with the number of its spawn and log the label of
    each pair the scoring loop counts.  In every run the log of the current
    game has no repetition -- no pair is counted twice -- and the score is
    the length of the log -- each counted pair adds exactly 1.  The labels
    are the spawn numbers: the next one is the count of draws, and every
    logged label is below it. *)
Theorem each_pair_scores_at_most_once
        (randint : nat -> Z) (e : Env) (queue : list (list Event)) (s : State) :
  program randint e queue = Ok s ->
  exists s0 g,
    startup e = Ok s0 /\
    ghost_main_loop randint queue (s0, ghost0) = Ok (s, g) /\
    map snd (tagged g) = pipes s /\
    next_id g = draws s /\
    NoDup (map fst (tagged g)) /\
    (forall i, In i (passed_ids g) -> (i < draws s)%nat) /\
    NoDup (passed_ids g) /\
    score s = Z.of_nat (List.length (passed_ids g)).
Proof.
  intros H. unfold program in H.
  destruct (startup e) as [s0|] eqn:E0; cbn [bind] in H; [|discriminate].
  destruct (ghost_main_loop_inv randint queue s0 ghost0 s H
              (ghost_inv_startup e s0 E0))
    as [g [Hrun (He & Hn & Hnd & _ & Hplt & Hpnd & Hsc & _)]].
  exists s0, g. rewrite <- Hn. repeat split; assumption.
Qed.

(** ** Start-up without music *)

(** Whatever the machine offers, the music block ends in its handler: when
    bg.ogg loads, reading the unbound name [music_volume] raises.  The
    handler's value 0.0 is then replaced by the default of line 207. *)
Lemma music_never_plays (e : Env) (s : State) :
  startup e = Ok s ->
  fst (fst (init_music e None)) = Some 0%float /\
  music_playing (audio s) = false /\
  stdout s = [info_message] /\
  music_volume s = 0.4%float.
Proof.
  intros H. apply startup_bird in H.
  destruct H as (_ & _ & _ & _ & Hm & _ & Hp & Ho & _).
  split; [|tauto].
  unfold init_music. cbn [lookup_name]. destruct (music_load_ok e); reflexivity.
Qed.

(** C2, evaluated where it fails.  On a machine without bg.ogg the handler
    sets [music_volume] to 0.0 and prints the notice, and the program reaches
    its loop without music.  But start-up ends with [music_volume] at 0.4,
    and opening the overlay and pressing M raises it to 0.45 and sends that
    to the mixer: the music volume control is not disabled. *)
Theorem music_volume_control_not_disabled :
  fst (fst (init_music quiet_env None)) = Some 0%float /\
  startup quiet_env = Ok fresh /\
  music_playing (audio fresh) = false /\
  stdout fresh = [info_message] /\
  music_volume fresh = 0.4%float /\
  exists s,
    main_loop (fun _ => 200) [[KEYDOWN K_v; KEYDOWN K_m]] fresh = Ok s /\
    running s = true /\
    music_playing (audio s) = false /\
    music_volume s = 0.45%float /\
    mixer_music_volume (audio s) = 0.45%float.
Proof.
  repeat (split; [reflexivity|]).
  eexists. split; [vm_compute; reflexivity|]. repeat split.
Qed.

(** ** Scoring in the tick of the collision *)

(** C10.  In an active tick that detects a collision, the high score is
    settled from the score as it stood before the scoring loop (and written
    to disk when it was beaten), and only then does the scoring loop add the
    pairs level with the bird.  There is a run in which this happens with a
    pair level with the bird: the game ends with score 2 on screen while the
    high score, in memory and on disk, is 1. *)
Theorem scoring_runs_after_game_over :
  (forall s s',
      game_active s = true -> show_volume_ui s = false ->
      update s = Ok s' -> game_active s' = false ->
      high_score s' = Z.max (high_score s) (score s) /\
      (score s > high_score s -> disk s' = Text (py_str_of_int (score s))) /\
      score s' = score_pipes (bird s') (pipes s') (score s)) /\
  program two_pipe_draws quiet_env (firstn 185 two_pipe_run) = Ok before_crash /\
  program two_pipe_draws quiet_env two_pipe_run = Ok after_crash /\
  frame two_pipe_draws [] before_crash = Ok after_crash /\
  game_active before_crash = true /\ score before_crash = 1 /\
  high_score before_crash = 0 /\ disk before_crash = Missing /\
  game_active after_crash = false /\ score after_crash = 2 /\
  high_score after_crash = 1 /\ disk after_crash = Text "1" /\
  high_score after_crash < score after_crash.
Proof.
  split.
  - intros s s' Ha Hu H Hover.
    assert (Hg : game_active s && negb (show_volume_ui s) = true)
      by (rewrite Ha, Hu; reflexivity).
    destruct (update_active s s' Hg H) as [d Hd].
    pose proof (update_active_at s s' d Hg Hd H) as E. cbv zeta in E.
    rewrite E in Hover |- *.
    cbn [game_active high_score disk score bird pipes] in *.
    destruct (hit_after s d); [|congruence]. cbn [andb].
    destruct (score s >? high_score s) eqn:Ec.
    + apply Z.gtb_gt in Ec. repeat split; lia.
    + rewrite Z.gtb_ltb in Ec. apply Z.ltb_ge in Ec. repeat split; lia.
  - repeat (split; [vm_compute; reflexivity|]). reflexivity.
Qed.

(** ** Instances

    Each statement above that carries a hypothesis is applied here to one of
    the sample states, with the hypothesis checked by evaluation. *)

Lemma move_pipes_prunes_before_shift_leaving :
  In (shift_pipe leaving_pair) (move_pipes [leaving_pair]) /\
  right (fst (shift_pipe leaving_pair)) > -53.
Proof.
  assert (H : In (shift_pipe leaving_pair) (move_pipes [leaving_pair]))
    by (left; reflexivity).
  split; [exact H|].
  exact (proj2 (move_pipes_prunes_before_shift [leaving_pair]) _ H).
Defined.

Lemma check_collision_iff_resting :
  positive_size (bird resting) /\
  (check_collision resting (pipes resting) = true <->
   (exists p, In p (pipes resting) /\
              (strict_overlap (bird resting) (fst p) \/
               strict_overlap (bird resting) (snd p)))
   \/ top (bird resting) <= -50
   \/ bottom (bird resting)
      >= SCREEN_HEIGHT - get_height (base_img (assets resting))).
Proof.
  assert (Hb : positive_size (bird resting)) by (split; reflexivity).
  split; [exact Hb|].
  apply (check_collision_iff resting (pipes resting) Hb).
  intros p [<- | []]. repeat split.
Defined.

Lemma gravity_from_rest_fresh :
  startup quiet_env = Ok fresh /\
  centery (bird fresh) = 256 /\ bird_movement fresh = 0%float /\
  (exists s1, apply_gravity fresh = Ok s1 /\
              bird_movement s1 = 0.2425%float /\
              py_int_of_float (bird_movement s1) = Ok 0 /\
              centery (bird s1) = 256) /\
  (exists s25, fall 25 fresh = Ok s25 /\ centery (bird s25) = 256 + 66 /\
               centery (bird s25) > 256).
Proof.
  split; [reflexivity|].
  apply (gravity_from_rest quiet_env fresh). reflexivity.
Defined.

Lemma load_highscore_recovers_samples :
  load_highscore (Text "12a") = Ok 0 /\
  load_highscore (Text (String (ascii_of_nat 28) "7")) = Ok 0 /\
  load_highscore (Text (String "4" (String "2" (String (ascii_of_nat 10) "")))) = Ok 42 /\
  load_highscore (Text " +1_000 ") = Ok 1000 /\
  load_highscore (Text (py_str_of_int (-7))) = Ok (-7).
Proof.
  destruct load_highscore_recovers
    as (_ & _ & _ & Hspells & _ & Hforeign & _ & Hstr & _).
  assert (Hsp : blank " ") by (repeat constructor).
  assert (Hnl : blank (String (ascii_of_nat 10) "")) by (repeat constructor).
  assert (Hno : blank "") by constructor.
  split; [|split; [|split; [|split]]].
  - apply (Hforeign "12a"%string "a"%char); [right; right; left|]; reflexivity.
  - apply (Hforeign (String (ascii_of_nat 28) "7") (ascii_of_nat 28));
      [left|]; reflexivity.
  - apply (Hspells _ 42).
    refine (spells_unsigned "" "42" (String (ascii_of_nat 10) "") "42" Hno Hnl _ _).
    + exact (grouped_digit "4" _ _ eq_refl (grouped_last "2" eq_refl)).
    + unfold max_str_digits. simpl. lia.
  - apply (Hspells _ 1000).
    refine (spells_plus " " "1_000" " " "1000" Hsp Hsp _ _).
    + exact (grouped_underscore "1" _ _ eq_refl
               (grouped_digit "0" _ _ eq_refl
                  (grouped_digit "0" _ _ eq_refl (grouped_last "0" eq_refl)))).
    + unfold max_str_digits. simpl. lia.
  - apply (Hstr (-7)). unfold max_str_digits. simpl. lia.
Defined.

Lemma overlay_suspends_paused :
  show_volume_ui paused = true /\
  pipes (handle_event (fun _ => 200) SPAWNPIPE paused) = pipes paused /\
  draws (handle_event (fun _ => 200) SPAWNPIPE paused) = draws paused /\
  update paused = Ok paused.
Proof.
  assert (H : show_volume_ui paused = true) by reflexivity.
  split; [exact H|].
  destruct (overlay_suspends (fun _ => 200) paused SPAWNPIPE H)
    as (_ & _ & Hp & _ & _ & _ & _ & Hd & Hu).
  repeat split; assumption.
Defined.

Lemma volumes_stay_in_range_sample :
  program (fun _ => 200) quiet_env [[KEYDOWN K_v; KEYDOWN K_m]]
  = Ok (handle_events (fun _ => 200) [KEYDOWN K_v; KEYDOWN K_m] fresh) /\
  let s' := handle_events (fun _ => 200) [KEYDOWN K_l; KEYDOWN K_l]
              (handle_events (fun _ => 200) [KEYDOWN K_v; KEYDOWN K_m] fresh) in
  in_unit_range (music_volume s') = true /\
  in_unit_range (sfx_volume s') = true /\
  music_volume (adjust_volume K_m s') = clamp (music_volume s' + volume_change) /\
  music_volume (adjust_volume K_n s') = clamp (music_volume s' - volume_change) /\
  sfx_volume (adjust_volume K_k s') = clamp (sfx_volume s' + volume_change) /\
  sfx_volume (adjust_volume K_l s') = clamp (sfx_volume s' - volume_change).
Proof.
  assert (H : program (fun _ => 200) quiet_env [[KEYDOWN K_v; KEYDOWN K_m]]
              = Ok (handle_events (fun _ => 200) [KEYDOWN K_v; KEYDOWN K_m] fresh))
    by reflexivity.
  split; [exact H|].
  exact (volumes_stay_in_range (fun _ => 200) quiet_env
           [[KEYDOWN K_v; KEYDOWN K_m]] [KEYDOWN K_l; KEYDOWN K_l] _ H).
Defined.

Lemma each_pair_scores_at_most_once_two_pipes :
  program two_pipe_draws quiet_env two_pipe_run = Ok after_crash /\
  score after_crash = 2 /\
  exists s0 g,
    startup quiet_env = Ok s0 /\
    ghost_main_loop two_pipe_draws two_pipe_run (s0, ghost0) = Ok (after_crash, g) /\
    map snd (tagged g) = pipes after_crash /\
    next_id g = draws after_crash /\
    NoDup (map fst (tagged g)) /\
    (forall i, In i (passed_ids g) -> (i < draws after_crash)%nat) /\
    NoDup (passed_ids g) /\
    score after_crash = Z.of_nat (List.length (passed_ids g)).
Proof.
  assert (H : program two_pipe_draws quiet_env two_pipe_run = Ok after_crash)
    by (vm_compute; reflexivity).
  split; [exact H|]. split; [reflexivity|].
  exact (each_pair_scores_at_most_once two_pipe_draws quiet_env two_pipe_run
           after_crash H).
Defined.

Lemma scoring_runs_after_game_over_crash :
  game_active before_crash = true /\ show_volume_ui before_crash = false /\
  update before_crash = Ok after_crash /\ game_active after_crash = false /\
  high_score after_crash = Z.max (high_score before_crash) (score before_crash) /\
  (score before_crash > high_score before_crash ->
   disk after_crash = Text (py_str_of_int (score before_crash))) /\
  score after_crash
  = score_pipes (bird after_crash) (pipes after_crash) (score before_crash).
Proof.
  assert (Ha : game_active before_crash = true) by reflexivity.
  assert (Hu : show_volume_ui before_crash = false) by reflexivity.
  assert (Hs : update before_crash = Ok after_crash) by (vm_compute; reflexivity).
  assert (Ho : game_active after_crash = false) by reflexivity.
  repeat (split; [assumption|]).
  exact (proj1 scoring_runs_after_game_over before_crash after_crash Ha Hu Hs Ho).
Defined.

(* ================================================================== *)
(** * Further properties of the loop *)

(** ** A general induction over runs *)

Lemma handle_events_app (randint : nat -> Z) (l1 l2 : list Event) (s : State) :
  handle_events randint (l1 ++ l2) s
  = handle_events randint l2 (handle_events randint l1 s).
Proof. unfold handle_events. apply fold_left_app. Qed.

Lemma run_invariant (randint : nat -> Z) (P : State -> Prop) :
  (forall event s, P s -> P (handle_event randint event s)) ->
  (forall s s', P s -> update s = Ok s' -> P s') ->
  forall queue events s0 s,
    P s0 -> main_loop randint queue s0 = Ok s ->
    P (handle_events randint events s).
Proof.
  intros Hev Hup.
  assert (Hevs : forall events s, P s -> P (handle_events randint events s)).
  { induction events as [|ev l IH]; intros s H; simpl; [exact H|].
    apply IH. now apply Hev. }
  induction queue as [|evs rest IH]; intros events s0 s H0 H; simpl in H.
  - inversion H; subst. now apply Hevs.
  - destruct (running s0); [|inversion H; subst; now apply Hevs].
    unfold frame in H.
    destruct (update (handle_events randint evs s0)) as [s1|] eqn:E;
      cbn [bind] in H; [|discriminate].
    apply (IH events s1 s); [|exact H].
    apply (Hup _ _ (Hevs evs s0 H0) E).
Qed.

Lemma program_invariant (randint : nat -> Z) (e : Env) (P : State -> Prop) :
  (forall s0, startup e = Ok s0 -> P s0) ->
  (forall event s, P s -> P (handle_event randint event s)) ->
  (forall s s', P s -> update s = Ok s' -> P s') ->
  forall queue events s,
    program randint e queue = Ok s ->
    P (handle_events randint events s).
Proof.
  intros H0 Hev Hup queue events s H. unfold program in H.
  destruct (startup e) as [s0|] eqn:E0; cbn [bind] in H; [|discriminate].
  apply (run_invariant randint P Hev Hup queue events s0 s); auto.
Qed.

Lemma centerx_get_rect_center sf cx cy : centerx (get_rect_center sf cx cy) = cx.
Proof. unfold centerx, get_rect_center; simpl; lia. Qed.

(** What [update] does to a state, in one equation. *)
Lemma update_cases (s s' : State) :
  update s = Ok s' ->
  (game_active s && negb (show_volume_ui s) = false /\ s' = s) \/
  (game_active s && negb (show_volume_ui s) = true /\
   exists d,
     py_int_of_float (bird_movement s + GRAVITY) = Ok d /\
     let b' := set_centery (bird s) (centery (bird s) + d) in
     let ps' := move_pipes (pipes s) in
     let hit := hit_after s d in
     s' = mkState (assets s) b' (bird_movement s + GRAVITY) ps'
            (if base_x s - 1 <=? - SCREEN_WIDTH then 0 else base_x s - 1)
            (score_pipes b' ps' (score s))
            (if hit then false else game_active s)
            (if hit && (score s >? high_score s) then score s else high_score s)
            (music_volume s) (sfx_volume s) (show_volume_ui s) (running s)
            (audio s)
            (if hit && (score s >? high_score s)
             then Text (py_str_of_int (score s)) else disk s)
            (draws s) (stdout s)).
Proof.
  intros H.
  destruct (game_active s && negb (show_volume_ui s)) eqn:Hg.
  - right. split; [reflexivity|].
    destruct (update_active s s' Hg H) as [d Hd].
    exists d. split; [exact Hd|]. exact (update_active_at s s' d Hg Hd H).
  - left. split; [reflexivity|].
    rewrite (update_idle s Hg) in H. now inversion H.
Qed.

(** ** Restart, overlay toggle, quit *)

(** X1.  The R key restarts only from a finished game with the overlay
    closed; there it is [reset_game], which zeroes the score, empties the
    field, recentres the bird at rest and reactivates the game, and leaves the
    high score, the volumes, the score file and the random generator alone.
    In every other mode R changes nothing. *)
Theorem restart_only_after_game_over (randint : nat -> Z) (s : State) :
  let s' := handle_event randint (KEYDOWN K_r) s in
  (game_active s = false -> show_volume_ui s = false ->
   s' = reset_game s /\
   score s' = 0 /\ pipes s' = [] /\ game_active s' = true /\
   bird_movement s' = 0%float /\ base_x s' = 0 /\
   centery (bird s') = 256 /\ centerx (bird s') = 50 /\
   high_score s' = high_score s /\ disk s' = disk s /\
   music_volume s' = music_volume s /\ sfx_volume s' = sfx_volume s /\
   audio s' = audio s /\ draws s' = draws s /\ running s' = running s /\
   show_volume_ui s' = false) /\
  (game_active s = true \/ show_volume_ui s = true -> s' = s).
Proof.
  destruct s as [a b v ps bx sc ga hs mv sv ui rn au dk dr out].
  cbn [game_active show_volume_ui]. split.
  - intros -> ->. cbv zeta.
    repeat split.
    + exact (centery_get_rect_center (bird_img a) 50 256).
    + exact (centerx_get_rect_center (bird_img a) 50 256).
  - intros [-> | ->]; [destruct ui | destruct ga]; reflexivity.
Qed.

(** X2.  The V key flips the overlay flag and nothing else, in every mode;
    pressing it twice gives back the very same state. *)
Theorem overlay_toggle_involutive (randint : nat -> Z) (s : State) :
  handle_event randint (KEYDOWN K_v) s
  = set_show_volume_ui s (negb (show_volume_ui s)) /\
  handle_event randint (KEYDOWN K_v) (handle_event randint (KEYDOWN K_v) s) = s.
Proof.
  destruct s as [a b v ps bx sc ga hs mv sv ui rn au dk dr out].
  split; destruct ga, ui; reflexivity.
Qed.

(** X3.  With the overlay closed the four volume keys do nothing at all. *)
Theorem volume_keys_need_overlay (randint : nat -> Z) (s : State) (key : Key) :
  show_volume_ui s = false ->
  key = K_m \/ key = K_n \/ key = K_k \/ key = K_l ->
  handle_event randint (KEYDOWN key) s = s.
Proof.
  destruct s as [a b v ps bx sc ga hs mv sv ui rn au dk dr out].
  cbn [show_volume_ui]. intros -> [-> | [-> | [-> | ->]]];
    destruct ga; reflexivity.
Qed.

Lemma handle_event_running (randint : nat -> Z) (event : Event) (s : State) :
  running (handle_event randint event s)
  = match event with QUIT => false | _ => running s end.
Proof.
  destruct s as [a b v ps bx sc ga hs mv sv ui rn au dk dr out].
  destruct event as [|[]| |]; destruct ga, ui; reflexivity.
Qed.

Lemma handle_events_running (randint : nat -> Z) (events : list Event) :
  forall s,
    running (handle_events randint events s)
    = if existsb (fun ev => match ev with QUIT => true | _ => false end) events
      then false else running s.
Proof.
  induction events as [|ev l IH]; intros s; simpl; [reflexivity|].
  rewrite IH, handle_event_running.
  destruct ev; simpl; try reflexivity.
  destruct (existsb _ l); reflexivity.
Qed.

Lemma update_running (s s' : State) : update s = Ok s' -> running s' = running s.
Proof.
  intros H. destruct (update_cases s s' H) as [[_ ->] | [_ [d [_ ->]]]];
    reflexivity.
Qed.

(** X4.  [running] is cleared by a QUIT event and by nothing else.  The
    iteration that reads QUIT still runs its tick, and the loop then stops:
    whatever is queued for later iterations is never read. *)
Theorem quit_stops_the_loop
        (randint : nat -> Z) (events : list Event) (rest : list (list Event))
        (s : State) :
  (In QUIT events ->
   running (handle_events randint events s) = false /\
   main_loop randint (events :: rest) s
   = if running s then frame randint events s else Ok s) /\
  (~ In QUIT events ->
   running (handle_events randint events s) = running s).
Proof.
  assert (Hq : In QUIT events <->
               existsb (fun ev => match ev with QUIT => true | _ => false end)
                       events = true).
  { rewrite existsb_exists. split.
    - intros H. now exists QUIT.
    - intros [ev [Hin Hev]]. destruct ev; try discriminate. exact Hin. }
  split.
  - intros Hin. apply Hq in Hin.
    assert (Hr : running (handle_events randint events s) = false)
      by (rewrite handle_events_running, Hin; reflexivity).
    split; [exact Hr|].
    simpl. destruct (running s); [|reflexivity].
    unfold frame.
    destruct (update (handle_events randint events s)) as [s1|] eqn:E;
      cbn [bind]; [|reflexivity].
    rewrite <- (update_running _ _ E) in Hr.
    destruct rest; simpl; [reflexivity | now rewrite Hr].
  - intros Hn. rewrite handle_events_running.
    destruct (existsb _ events) eqn:E; [|reflexivity].
    exfalso. apply Hn, Hq. reflexivity.
Qed.

(** ** Game over *)

Lemma handle_event_game_over (randint : nat -> Z) (event : Event) (s : State) :
  game_active s = false -> event <> KEYDOWN K_r ->
  let s' := handle_event randint event s in
  game_active s' = false /\ bird s' = bird s /\
  bird_movement s' = bird_movement s /\ pipes s' = pipes s /\
  score s' = score s /\ high_score s' = high_score s /\
  base_x s' = base_x s /\ disk s' = disk s /\ draws s' = draws s.
Proof.
  destruct s as [a b v ps bx sc ga hs mv sv ui rn au dk dr out].
  cbn [game_active]. intros -> Hr.
  destruct event as [|[]| |]; try congruence; destruct ui; cbv zeta;
    repeat split.
Qed.

(** X5.  A finished game is frozen: as long as R is not pressed, a whole
    iteration -- flaps, spawn events, volume keys, the tick -- succeeds and
    leaves the bird, its velocity, the field, the score, the high score, the
    ground offset, the score file and the random generator as they were. *)
Theorem game_over_is_frozen
        (randint : nat -> Z) (events : list Event) (s : State) :
  game_active s = false -> ~ In (KEYDOWN K_r) events ->
  exists s',
    frame randint events s = Ok s' /\
    game_active s' = false /\ bird s' = bird s /\
    bird_movement s' = bird_movement s /\ pipes s' = pipes s /\
    score s' = score s /\ high_score s' = high_score s /\
    base_x s' = base_x s /\ disk s' = disk s /\ draws s' = draws s.
Proof.
  intros Ha Hr. unfold frame.
  assert (H : let s1 := handle_events randint events s in
              game_active s1 = false /\ bird s1 = bird s /\
              bird_movement s1 = bird_movement s /\ pipes s1 = pipes s /\
              score s1 = score s /\ high_score s1 = high_score s /\
              base_x s1 = base_x s /\ disk s1 = disk s /\ draws s1 = draws s).
  { revert s Ha. induction events as [|ev l IH]; intros s Ha; simpl.
    - repeat split; assumption.
    - assert (Hev : ev <> KEYDOWN K_r) by (intros ->; apply Hr; now left).
      destruct (handle_event_game_over randint ev s Ha Hev)
        as (A1 & A2 & A3 & A4 & A5 & A6 & A7 & A8 & A9).
      destruct (IH (fun H => Hr (or_intror H)) (handle_event randint ev s) A1)
        as (B1 & B2 & B3 & B4 & B5 & B6 & B7 & B8 & B9).
      repeat split; congruence. }
  cbv zeta in H. destruct H as (H1 & H).
  exists (handle_events randint events s). split; [|split; assumption].
  apply update_idle. now rewrite H1.
Qed.

(** ** Flap *)

(** X6.  While playing with the overlay closed, the space key sets the
    velocity to -6 whatever it was (no cooldown) and changes nothing else.
    The tick that follows adds gravity, giving -5.7575, and moves the bird up
    by 5 pixels, not 6: the velocity is truncated toward zero. *)
Theorem flap_lifts_five_pixels (randint : nat -> Z) (s s2 : State) :
  game_active s = true -> show_volume_ui s = false ->
  frame randint [KEYDOWN K_SPACE] s = Ok s2 ->
  handle_event randint (KEYDOWN K_SPACE) s = set_bird_movement s FLAP_STRENGTH /\
  bird_movement s2 = (-5.7575)%float /\
  centery (bird s2) = centery (bird s) - 5 /\
  centerx (bird s2) = centerx (bird s).
Proof.
  intros Ha Hu H.
  assert (E : handle_event randint (KEYDOWN K_SPACE) s
              = set_bird_movement s FLAP_STRENGTH).
  { destruct s as [a b v ps bx sc ga hs mv sv ui rn au dk dr out].
    cbn [game_active show_volume_ui] in Ha, Hu. subst. reflexivity. }
  split; [exact E|].
  unfold frame in H. cbn [handle_events fold_left] in H. rewrite E in H.
  destruct (update_cases _ _ H) as [[Hg _] | [_ [d [Hd Hs]]]].
  - cbn [game_active show_volume_ui set_bird_movement] in Hg.
    rewrite Ha, Hu in Hg. discriminate.
  - cbv zeta in Hs. cbn [bird_movement set_bird_movement] in Hd.
    vm_compute in Hd. inversion Hd; subst d. rewrite Hs.
    cbn [bird bird_movement set_bird_movement].
    rewrite centery_set_centery.
    repeat split; lia.
Qed.

(** ** Invariants of every run *)

Lemma handle_event_base_x (randint : nat -> Z) (event : Event) (s : State) :
  base_x (handle_event randint event s) = base_x s \/
  base_x (handle_event randint event s) = 0.
Proof.
  destruct s as [a b v ps bx sc ga hs mv sv ui rn au dk dr out].
  destruct event as [|[]| |]; destruct ga, ui; cbn; auto.
Qed.

(** X7.  The ground offset stays in (-288, 0] throughout every run: it
    steps down by one per active tick and wraps to 0 on reaching -288. *)
Theorem base_x_stays_on_screen
        (randint : nat -> Z) (e : Env) (queue : list (list Event))
        (events : list Event) (s : State) :
  program randint e queue = Ok s ->
  - SCREEN_WIDTH < base_x (handle_events randint events s) <= 0.
Proof.
  apply (program_invariant randint e
           (fun s => - SCREEN_WIDTH < base_x s <= 0)).
  - unfold startup. intros s0.
    destruct (init_music e None) as [[mv au] out].
    destruct (load_highscore (highscore_file e)); cbn [bind]; [|discriminate].
    destruct (fetched e); cbn [bind lookup_name]; [|discriminate].
    intros H. inversion H; subst. cbn. unfold SCREEN_WIDTH. lia.
  - intros ev s1 H.
    destruct (handle_event_base_x randint ev s1) as [-> | ->];
      [exact H | unfold SCREEN_WIDTH; lia].
  - intros s1 s' H Hu.
    destruct (update_cases s1 s' Hu) as [[_ ->] | [_ [d [_ ->]]]]; [exact H|].
    cbn [base_x].
    destruct (base_x s1 - 1 <=? - SCREEN_WIDTH) eqn:E; cbv iota;
      unfold SCREEN_WIDTH in *.
    + lia.
    + apply Z.leb_gt in E. lia.
Qed.

(** ** Start-up *)

Lemma init_music_unbound (e : Env) :
  init_music e None = (Some 0%float, default_audio, [info_message]).
Proof. unfold init_music. cbn [lookup_name]. destruct (music_load_ok e); reflexivity. Qed.

Lemma startup_ok (e : Env) (s : State) :
  startup e = Ok s ->
  exists a hs,
    fetched e = Ok a /\ load_highscore (highscore_file e) = Ok hs /\
    s = mkState (mkAssets (bird_img a) (base_img a) (pipe_img a) (pipe_img a))
          (get_rect_center (bird_img a) 50 256)
          0%float [] 0 0 true hs 0.4%float 0.5%float false true
          default_audio (highscore_file e) 0%nat [info_message].
Proof.
  unfold startup. rewrite init_music_unbound.
  destruct (load_highscore (highscore_file e)) as [hs|]; cbn [bind]; [|discriminate].
  destruct (fetched e) as [a|]; cbn [bind lookup_name]; [|discriminate].
  intros H. inversion H; subst. exists a, hs. repeat split.
Qed.

(** X8.  Start-up fails in exactly two ways: the score file cannot be opened
    ([OSError], raised before any download), or a download fails.  Trouble
    with the music file never stops it.  When it succeeds the game is active
    with the overlay closed, score 0, an empty field, no music playing, and
    the high score is what the score file reads as. *)
Theorem startup_outcome (e : Env) :
  (highscore_file e = Denied -> startup e = Raise OSError) /\
  (highscore_file e <> Denied ->
   forall x, fetched e = Raise x -> startup e = Raise x) /\
  (highscore_file e <> Denied ->
   forall a, fetched e = Ok a ->
   exists s, startup e = Ok s /\
             game_active s = true /\ show_volume_ui s = false /\
             running s = true /\ score s = 0 /\ pipes s = [] /\
             music_playing (audio s) = false /\
             load_highscore (highscore_file e) = Ok (high_score s)).
Proof.
  unfold startup. rewrite init_music_unbound.
  split; [|split].
  - intros ->. reflexivity.
  - intros Hd x Hx.
    destruct (highscore_file e) eqn:Ef; try congruence; unfold load_highscore;
      cbn [path_exists open_read bind]; rewrite ?Hx; try reflexivity.
    destruct (py_int_of_str content); cbn [try_except bind]; rewrite ?Hx; reflexivity.
  - intros Hd a Ha.
    destruct (highscore_file e) eqn:Ef; try congruence; unfold load_highscore;
      cbn [path_exists open_read bind]; rewrite ?Ha; cbn [bind lookup_name].
    + eexists. split; [reflexivity|]. repeat split.
    + destruct (py_int_of_str content); cbn [try_except bind]; rewrite ?Ha;
        cbn [bind lookup_name]; eexists; (split; [reflexivity|]); repeat split.
Qed.

(** ** What never changes *)

Lemma handle_event_keeps (randint : nat -> Z) (event : Event) (s : State) :
  let s' := handle_event randint event s in
  assets s' = assets s /\ high_score s' = high_score s /\ disk s' = disk s /\
  stdout s' = stdout s /\
  (bird s' = bird s \/
   bird s' = get_rect_center (bird_img (assets s)) 50 256) /\
  (score s' = score s \/ score s' = 0) /\
  (draws s' = draws s \/ draws s' = S (draws s)).
Proof.
  destruct s as [a b v ps bx sc ga hs mv sv ui rn au dk dr out].
  destruct event as [|[]| |]; destruct ga, ui; cbv zeta; cbn; auto 10.
Qed.

(** X9.  The bird never moves sideways and never changes size: in every
    run its box keeps the sprite's width and height and stays centred on
    x = 50; only its y changes.  The sprites themselves are those fetched at
    start-up, the flipped pipe having the size of the pipe. *)
Theorem bird_keeps_its_column
        (randint : nat -> Z) (e : Env) (queue : list (list Event))
        (events : list Event) (s : State) :
  program randint e queue = Ok s ->
  let s' := handle_events randint events s in
  exists a,
    fetched e = Ok a /\
    assets s' = mkAssets (bird_img a) (base_img a) (pipe_img a) (pipe_img a) /\
    bird s' = mkRect (50 - Z.quot (get_width (bird_img a)) 2) (ry (bird s'))
                     (get_width (bird_img a)) (get_height (bird_img a)) /\
    centerx (bird s') = 50.
Proof.
  intros H s'. unfold program in H.
  destruct (startup e) as [s0|] eqn:E0; cbn [bind] in H; [|discriminate].
  destruct (startup_ok e s0 E0) as (a & hs & Ha & _ & Hs0).
  exists a. split; [exact Ha|].
  set (A := mkAssets (bird_img a) (base_img a) (pipe_img a) (pipe_img a)).
  set (P := fun t : State =>
              assets t = A /\
              bird t = mkRect (50 - Z.quot (get_width (bird_img a)) 2) (ry (bird t))
                              (get_width (bird_img a)) (get_height (bird_img a))).
  assert (HP : P s').
  { apply (run_invariant randint P) with (queue := queue) (s0 := s0); [| | |exact H].
    - intros ev t [Ht Hb].
      destruct (handle_event_keeps randint ev t) as (K1 & _ & _ & _ & K2 & _).
      split; [congruence|].
      destruct K2 as [-> | ->]; [exact Hb|]. rewrite Ht. reflexivity.
    - intros t t' [Ht Hb] Hu.
      destruct (update_cases t t' Hu) as [[_ ->] | [_ [d [_ ->]]]];
        [split; assumption|].
      cbn [assets bird]. split; [exact Ht|].
      assert (Hx : rx (bird t) = 50 - Z.quot (get_width (bird_img a)) 2 /\
                   rw (bird t) = get_width (bird_img a) /\
                   rh (bird t) = get_height (bird_img a))
        by (rewrite Hb; auto).
      destruct Hx as (Hx & Hw & Hh).
      unfold set_centery. cbn [ry]. rewrite Hx, Hw, Hh. reflexivity.
    - rewrite Hs0. split; reflexivity. }
  destruct HP as [HA HB]. split; [exact HA|]. split; [exact HB|].
  rewrite HB. unfold centerx. cbn [rx rw]. lia.
Qed.

(** ** The high score *)

(** X10.  The high score never decreases: over any stretch of the loop,
    from any state, it ends at least as high as it began. *)
Theorem high_score_never_decreases
        (randint : nat -> Z) (queue : list (list Event))
        (events : list Event) (s s' : State) :
  main_loop randint queue s = Ok s' ->
  high_score s <= high_score (handle_events randint events s').
Proof.
  apply (run_invariant randint (fun t => high_score s <= high_score t)).
  - intros ev t Ht.
    destruct (handle_event_keeps randint ev t) as (_ & -> & _). exact Ht.
  - intros t t' Ht Hu.
    destruct (update_cases t t' Hu) as [[_ ->] | [_ [d [_ ->]]]]; [exact Ht|].
    cbn [high_score].
    destruct (hit_after t d && (score t >? high_score t)) eqn:E; [|exact Ht].
    apply andb_true_iff in E. destruct E as [_ E]. apply Z.gtb_gt in E. lia.
  - lia.
Qed.

Lemma load_highscore_str (n : Z) :
  (String.length (py_str_of_int (Z.abs n)) <= max_str_digits)%nat ->
  load_highscore (Text (py_str_of_int n)) = Ok n.
Proof.
  intros Hl. unfold load_highscore. cbn [path_exists open_read bind].
  now rewrite (py_int_of_str_spells _ n (spells_str n Hl)).
Qed.

(** X11.  In every run the score file reads back as the high score held in
    memory, as long as that high score has at most 4300 digits: the two are
    set together at start-up and together again each time the high score is
    beaten. *)
Theorem score_file_matches_high_score
        (randint : nat -> Z) (e : Env) (queue : list (list Event))
        (events : list Event) (s : State) :
  program randint e queue = Ok s ->
  let s' := handle_events randint events s in
  (String.length (py_str_of_int (Z.abs (high_score s'))) <= max_str_digits)%nat ->
  load_highscore (disk s') = Ok (high_score s').
Proof.
  apply (program_invariant randint e
           (fun t => (String.length (py_str_of_int (Z.abs (high_score t)))
                      <= max_str_digits)%nat ->
                     load_highscore (disk t) = Ok (high_score t))).
  - intros s0 H0. destruct (startup_ok e s0 H0) as (a & hs & _ & Hl & ->).
    intros _. exact Hl.
  - intros ev t Ht.
    destruct (handle_event_keeps randint ev t) as (_ & -> & -> & _). exact Ht.
  - intros t t' Ht Hu.
    destruct (update_cases t t' Hu) as [[_ ->] | [_ [d [_ ->]]]]; [exact Ht|].
    cbn [high_score disk].
    destruct (hit_after t d && (score t >? high_score t)); [|exact Ht].
    apply load_highscore_str.
Qed.

(** ** Device volumes *)


(** ** Score and spawns *)

Lemma NoDup_below_length (l : list nat) (n : nat) :
  NoDup l -> (forall i, In i l -> (i < n)%nat) -> (List.length l <= n)%nat.
Proof.
  intros Hnd Hlt.
  assert (H : (List.length l <= List.length (seq 0 n))%nat).
  { apply NoDup_incl_length; [exact Hnd|].
    intros i Hi. apply in_seq. specialize (Hlt i Hi). lia. }
  now rewrite length_seq in H.
Qed.

(** X13.  The score is never negative and never exceeds the number of
    pairs spawned so far in the process (one random draw per spawn). *)
Theorem score_bounded_by_spawns
        (randint : nat -> Z) (e : Env) (queue : list (list Event))
        (events : list Event) (s : State) :
  program randint e queue = Ok s ->
  let s' := handle_events randint events s in
  0 <= score s' <= Z.of_nat (draws s').
Proof.
  intros H s'. unfold program in H.
  destruct (startup e) as [s0|] eqn:E0; cbn [bind] in H; [|discriminate].
  destruct (ghost_main_loop_inv randint queue s0 ghost0 s H
              (ghost_inv_startup e s0 E0)) as [g [_ Hinv]].
  pose proof (ghost_events_inv randint events s g Hinv) as Hinv'.
  fold s' in Hinv'.
  destruct Hinv' as (_ & Hn & _ & _ & Hplt & Hpnd & Hsc & _).
  rewrite Hsc, <- Hn.
  pose proof (NoDup_below_length _ _ Hpnd Hplt). lia.
Qed.

(** ** The field *)

Lemma handle_event_pipes (randint : nat -> Z) (event : Event) (s : State) :
  let s' := handle_event randint event s in
  pipes s' = pipes s \/ pipes s' = [] \/
  pipes s' = pipes s ++ [fst (create_pipe randint s)].
Proof.
  destruct s as [a b v ps bx sc ga hs mv sv ui rn au dk dr out].
  destruct event as [|[]| |]; destruct ga, ui; cbv zeta; cbn; auto.
Qed.

Lemma create_pipe_shape (randint : nat -> Z) (s : State) :
  pipe_flipped (assets s) = pipe_img (assets s) ->
  pipe_shape (pipe_img (assets s)) (fst (create_pipe randint s)).
Proof.
  intros Hf. unfold pipe_shape, create_pipe, get_rect_midtop, get_rect_midbottom,
    top, bottom, centerx.
  cbn [fst snd rx ry rw rh]. rewrite Hf.
  repeat split; try lia.
  exists 0%nat. lia.
Qed.

Lemma shift_pipe_shape (sf : Surface) (p : Pipe) :
  pipe_shape sf p -> pipe_shape sf (shift_pipe p).
Proof.
  unfold pipe_shape, shift_pipe, move, top, bottom, centerx.
  cbn [fst snd rx ry rw rh].
  intros (H1 & H2 & H3 & H4 & H5 & H6 & [k H7]).
  repeat split; try assumption; try lia.
  exists (S k). lia.
Qed.

Lemma move_pipes_shape (sf : Surface) (l : list Pipe) :
  Forall (pipe_shape sf) l -> Forall (pipe_shape sf) (move_pipes l).
Proof.
  intros H. unfold move_pipes. apply Forall_forall. intros p Hp.
  apply in_map_iff in Hp. destruct Hp as [q [<- Hq]].
  apply filter_In in Hq. destruct Hq as [Hq _].
  apply shift_pipe_shape. exact (proj1 (Forall_forall _ _) H q Hq).
Qed.

(** X14.  In every run every pair in the field has the shape it was
    spawned with: both boxes keep the pipe sprite's size, share one x, and
    leave a gap of exactly 100 between them; its centre is at 338 - 3k for
    the number k of moves it has made.  Since the bird stays at x = 50 and
    288 is a multiple of 3, the exact-equality scoring test is met by a pair
    precisely at its 96th move: no pair slips past it. *)
Theorem field_pairs_keep_shape
        (randint : nat -> Z) (e : Env) (queue : list (list Event))
        (events : list Event) (s : State) :
  program randint e queue = Ok s ->
  let s' := handle_events randint events s in
  Forall (pipe_shape (pipe_img (assets s'))) (pipes s') /\
  forall p, In p (pipes s') ->
    exists moves : nat,
      centerx (fst p) = 338 - 3 * Z.of_nat moves /\
      (centerx (fst p) = centerx (bird s') <-> moves = 96%nat).
Proof.
  intros H s'.
  assert (HP : pipe_flipped (assets s') = pipe_img (assets s') /\
               centerx (bird s') = 50 /\
               Forall (pipe_shape (pipe_img (assets s'))) (pipes s')).
  { revert H. apply (program_invariant randint e
      (fun t => pipe_flipped (assets t) = pipe_img (assets t) /\
                centerx (bird t) = 50 /\
                Forall (pipe_shape (pipe_img (assets t))) (pipes t))).
    - intros s0 H0. destruct (startup_ok e s0 H0) as (a & hs & _ & _ & ->).
      cbn [assets bird pipes pipe_flipped pipe_img].
      split; [reflexivity|]. split; [apply centerx_get_rect_center | constructor].
    - intros ev t (Hf & Hb & Hp).
      destruct (handle_event_keeps randint ev t) as (K1 & _ & _ & _ & K2 & _).
      rewrite K1. split; [exact Hf|]. split.
      + destruct K2 as [-> | ->]; [exact Hb | apply centerx_get_rect_center].
      + destruct (handle_event_pipes randint ev t) as [-> | [-> | ->]].
        * exact Hp.
        * constructor.
        * apply Forall_app. split; [exact Hp|].
          constructor; [now apply create_pipe_shape | constructor].
    - intros t t' (Hf & Hb & Hp) Hu.
      destruct (update_cases t t' Hu) as [[_ ->] | [_ [d [_ ->]]]];
        [repeat split; assumption|].
      cbn [assets bird pipes]. split; [exact Hf|]. split; [exact Hb|].
      now apply move_pipes_shape. }
  destruct HP as (_ & Hb & Hp). split; [exact Hp|].
  intros p Hin.
  destruct (proj1 (Forall_forall _ _) Hp p Hin) as (_ & _ & _ & _ & _ & _ & [k Hk]).
  exists k. unfold SCREEN_WIDTH in Hk. rewrite Hb. split; lia.
Qed.

Lemma StronglySorted_snoc (l : list Pipe) (q : Pipe) :
  StronglySorted left_of l -> Forall (fun p => left_of p q) l ->
  StronglySorted left_of (l ++ [q]).
Proof.
  induction 1 as [|p l Hs IH Hall]; intros Hq; simpl.
  - repeat constructor.
  - inversion Hq; subst. constructor; [now apply IH|].
    apply Forall_app. split; [exact Hall | now repeat constructor].
Qed.

Lemma move_pipes_sorted (l : list Pipe) :
  StronglySorted left_of l -> StronglySorted left_of (move_pipes l).
Proof.
  unfold move_pipes.
  induction 1 as [|p l Hs IH Hall]; simpl; [constructor|].
  destruct (on_screen p); simpl; [|exact IH].
  constructor; [exact IH|].
  apply Forall_forall. intros q Hq.
  apply in_map_iff in Hq. destruct Hq as [r [<- Hr]].
  apply filter_In in Hr. destruct Hr as [Hr _].
  pose proof (proj1 (Forall_forall _ _) Hall r Hr) as Hpr.
  unfold left_of, shift_pipe in *. cbn [fst]. rewrite !centerx_move. lia.
Qed.

Lemma move_pipes_bound (l : list Pipe) (c : Z) :
  Forall (fun p => centerx (fst p) <= c) l ->
  Forall (fun p => centerx (fst p) <= c) (move_pipes l).
Proof.
  intros H. unfold move_pipes. apply Forall_forall. intros q Hq.
  apply in_map_iff in Hq. destruct Hq as [r [<- Hr]].
  apply filter_In in Hr. destruct Hr as [Hr _].
  pose proof (proj1 (Forall_forall _ _) H r Hr) as Hb. cbn beta in Hb.
  unfold shift_pipe. cbn [fst]. rewrite centerx_move. lia.
Qed.

(** X15.  In every run the field is ordered as it was filled: along the
    list the pairs' centres never decrease, so the oldest pair is the
    leftmost and comes first, and no centre lies right of the spawn column
    x = 338. *)
Theorem field_is_ordered_by_age
        (randint : nat -> Z) (e : Env) (queue : list (list Event))
        (events : list Event) (s : State) :
  program randint e queue = Ok s ->
  let s' := handle_events randint events s in
  StronglySorted left_of (pipes s') /\
  Forall (fun p => centerx (fst p) <= SCREEN_WIDTH + 50) (pipes s').
Proof.
  apply (program_invariant randint e
    (fun t => StronglySorted left_of (pipes t) /\
              Forall (fun p => centerx (fst p) <= SCREEN_WIDTH + 50) (pipes t))).
  - intros s0 H0. destruct (startup_ok e s0 H0) as (a & hs & _ & _ & ->).
    cbn [pipes]. split; constructor.
  - intros ev t (Hs & Hb).
    assert (Hc : centerx (fst (fst (create_pipe randint t))) = SCREEN_WIDTH + 50).
    { unfold create_pipe, get_rect_midbottom, centerx. cbn [fst rx rw]. lia. }
    destruct (handle_event_pipes randint ev t) as [-> | [-> | ->]].
    + split; assumption.
    + split; constructor.
    + split.
      * apply StronglySorted_snoc; [exact Hs|].
        unfold left_of. rewrite Hc. exact Hb.
      * apply Forall_app. split; [exact Hb|].
        constructor; [lia | constructor].
  - intros t t' (Hs & Hb) Hu.
    destruct (update_cases t t' Hu) as [[_ ->] | [_ [d [_ ->]]]];
      [split; assumption|].
    cbn [pipes]. split; [now apply move_pipes_sorted | now apply move_pipes_bound].
Qed.

(** ** The volume overlay *)

Lemma volume_levels_percent :
  Forall (fun v => exists p, volume_percent v = Ok p /\ 0 <= p <= 100 /\
                             (p mod 5 = 0 \/ p mod 5 = 4))
         volume_levels.
Proof.
  unfold volume_levels.
  repeat (apply Forall_cons;
          [ eexists; split; [vm_compute; reflexivity|];
            split; [lia|]; vm_compute; auto |]).
  apply Forall_nil.
Qed.

(** X16.  In every run the overlay can be drawn: [int(volume*100)] never
    fails, and both percentages shown are between 0 and 100.  Because the
    product is truncated, a percentage is a multiple of 5 or one below it
    (a volume of 0.44999999999999996 shows as 44%). *)
Theorem overlay_shows_valid_percentages
        (randint : nat -> Z) (e : Env) (queue : list (list Event))
        (events : list Event) (s : State) :
  program randint e queue = Ok s ->
  let s' := handle_events randint events s in
  exists m f,
    draw_volume_ui s'
    = Ok [FillRect (0, 0, 0) (20, 150, 248, 100);
          DrawText "Volume Settings" 90 160;
          DrawText ("Music Volume: " ++ py_str_of_int m ++ "%") 50 190;
          DrawText ("SFX Volume: " ++ py_str_of_int f ++ "%") 50 220;
          DrawText "Use M/N to adjust Music" 50 250;
          DrawText "Use K/L to adjust SFX" 50 280;
          DrawText "Press V to close" 50 310] /\
    0 <= m <= 100 /\ 0 <= f <= 100 /\
    (m mod 5 = 0 \/ m mod 5 = 4) /\ (f mod 5 = 0 \/ f mod 5 = 4).
Proof.
  intros H s'. unfold program in H.
  destruct (startup e) as [s0|] eqn:E0; cbn [bind] in H; [|discriminate].
  assert (Hv : volumes_ok s').
  { apply handle_events_volumes. apply (main_loop_volumes randint queue s0 s H).
    now apply (startup_volumes e). }
  destruct Hv as [Hm Hs].
  destruct (proj1 (Forall_forall _ _) volume_levels_percent _ Hm)
    as (m & Em & Rm & Mm).
  destruct (proj1 (Forall_forall _ _) volume_levels_percent _ Hs)
    as (f & Ef & Rf & Mf).
  exists m, f. unfold draw_volume_ui. rewrite Em, Ef. cbn [bind].
  split; [reflexivity | tauto].
Qed.

(** ** White space around the stored score *)

(** X17.  White space around the content of the score file is ignored:
    padding the text with blanks, tabs or line ends on either side changes
    nothing in what [load_highscore] returns.  In particular the number
    written by [save_highscore], of at most 4300 digits, followed by a line
    end reads back. *)
Theorem load_highscore_ignores_padding (pre content post : string) :
  blank pre -> blank post ->
  load_highscore (Text (pre ++ content ++ post)) = load_highscore (Text content) /\
  forall n, (String.length (py_str_of_int (Z.abs n)) <= max_str_digits)%nat ->
            content = py_str_of_int n ->
            load_highscore (Text (pre ++ content ++ post)) = Ok n.
Proof.
  intros Hpre Hpost.
  assert (E : load_highscore (Text (pre ++ content ++ post))
              = load_highscore (Text content)).
  { unfold load_highscore, py_int_of_str. cbn [path_exists open_read bind].
    now rewrite strip_padding. }
  split; [exact E|].
  intros n Hl ->. rewrite E. now apply load_highscore_str.
Qed.

(** ** The loop never raises *)

Lemma flight_table (k : nat) (v0 : float) :
  (k <= 98)%nat -> v0 = 0%float \/ v0 = FLAP_STRENGTH ->
  (exists d, py_int_of_float (velocity_after (S k) v0) = Ok d) /\
  PrimFloat.leb (-6) (velocity_after k v0) = true /\
  PrimFloat.leb (velocity_after k v0) 24 = true.
Proof.
  intros Hk Hv.
  assert (T : forall v, v = 0%float \/ v = FLAP_STRENGTH ->
            forallb (fun k =>
                       match py_int_of_float (velocity_after (S k) v) with
                       | Ok _ => true
                       | Raise _ => false
                       end
                       && PrimFloat.leb (-6) (velocity_after k v)
                       && PrimFloat.leb (velocity_after k v) 24)
                    (seq 0 99) = true).
  { intros v [-> | ->]; vm_compute; reflexivity. }
  specialize (T v0 Hv). rewrite forallb_forall in T.
  specialize (T k). rewrite in_seq in T.
  assert (Hin : (0 <= k < 0 + 99)%nat) by lia.
  specialize (T Hin).
  apply andb_true_iff in T. destruct T as [T T3].
  apply andb_true_iff in T. destruct T as [T1 T2].
  split; [|split; assumption].
  destruct (py_int_of_float (velocity_after (S k) v0)) as [d|]; [|discriminate].
  now exists d.
Qed.

Lemma flight_lands (v0 : float) :
  v0 = 0%float \/ v0 = FLAP_STRENGTH -> 562 <= fallen_after 98 v0.
Proof. intros [-> | ->]; vm_compute; discriminate. Qed.

Lemma bottom_set_centery (r : Rect) (d : Z) :
  bottom (set_centery r (centery r + d)) = bottom r + d /\
  top (set_centery r (centery r + d)) = top r + d.
Proof. unfold bottom, top, set_centery, centery. cbn [rx ry rw rh]. lia. Qed.

Lemma hit_after_false (s : State) (d : Z) :
  hit_after s d = false ->
  -50 < top (bird s) + d /\
  bottom (bird s) + d < SCREEN_HEIGHT - get_height (base_img (assets s)).
Proof.
  unfold hit_after, check_collision. cbn [bird assets set_bird].
  destruct (bottom_set_centery (bird s) d) as [-> ->].
  destruct (hits_pipe _ _); [discriminate|].
  destruct (top (bird s) + d <=? -50) eqn:E1; [discriminate|].
  destruct (bottom (bird s) + d >=? _) eqn:E2; [discriminate|].
  intros _. apply Z.leb_gt in E1. rewrite Z.geb_leb in E2. apply Z.leb_gt in E2.
  lia.
Qed.

Lemma handle_event_flight (randint : nat -> Z) (event : Event) (s : State) :
  let s' := handle_event randint event s in
  (bird_movement s' = bird_movement s /\ bird s' = bird s /\
   game_active s' = game_active s) \/
  (game_active s = true /\ bird_movement s' = FLAP_STRENGTH /\
   bird s' = bird s /\ game_active s' = true) \/
  (bird_movement s' = 0%float /\
   bird s' = get_rect_center (bird_img (assets s)) 50 256 /\
   game_active s' = true).
Proof.
  destruct s as [a b v ps bx sc ga hs mv sv ui rn au dk dr out].
  destruct event as [|[]| |]; destruct ga, ui; cbv zeta; cbn; auto 10.
Qed.

Lemma flight_inv_event (randint : nat -> Z) (event : Event) (s : State) :
  flight_inv s -> flight_inv (handle_event randint event s).
Proof.
  intros (Hd & Hbase & Hbird & Hrh & k & v0 & Hk & Hv & Hm & Hact).
  destruct (handle_event_keeps randint event s) as (K1 & _ & K3 & _).
  unfold flight_inv. rewrite K1, K3.
  destruct (handle_event_flight randint event s)
    as [(E1 & E2 & E3) | [(Ha & E1 & E2 & E3) | (E1 & E2 & E3)]];
    rewrite E1, E2, E3.
  - repeat split; try assumption. exists k, v0. tauto.
  - repeat split; try assumption.
    destruct (Hact Ha) as (_ & Hb & _).
    exists 0%nat, FLAP_STRENGTH.
    split; [lia|]. split; [now right|]. split; [reflexivity|].
    intros _. split; [lia|]. split; [exact Hb|].
    exists (bottom (bird s)). cbn [fallen_after]. split; lia.
  - assert (Hb : -50 < bottom (get_rect_center (bird_img (assets s)) 50 256)).
    { unfold bottom, get_rect_center. cbn [ry rh].
      rewrite Z.quot_div_nonneg by lia.
      pose proof (Z.div_le_upper_bound (get_height (bird_img (assets s))) 2
                    (get_height (bird_img (assets s)))). lia. }
    repeat split; try assumption.
    exists 0%nat, 0%float.
    split; [lia|]. split; [now left|]. split; [reflexivity|].
    intros _. split; [lia|]. split; [exact Hb|].
    exists (bottom (get_rect_center (bird_img (assets s)) 50 256)).
    cbn [fallen_after]. split; lia.
Qed.

Lemma update_total (s : State) (d : Z) :
  py_int_of_float (bird_movement s + GRAVITY) = Ok d ->
  disk s <> Denied ->
  exists s', update s = Ok s'.
Proof.
  destruct (game_active s && negb (show_volume_ui s)) eqn:Hg.
  2:{ intros _ _. exists s. now apply update_idle. }
  unfold update. rewrite Hg. clear Hg.
  unfold apply_gravity, scroll_base, on_collision, check_collision.
  generalize (- SCREEN_WIDTH) as w. intros w.
  destruct s as [a b v ps bx sc ga hs mv sv ui rn au dk dr out].
  state_cbv. intros Ed Hdk. rewrite Ed. cbn [bind].
  destruct (bx - 1 <=? w); state_cbv;
    (destruct (hits_pipe (set_centery b (centery b + d)) (move_pipes ps));
     [|destruct ((top (set_centery b (centery b + d)) <=? -50)
               || (bottom (set_centery b (centery b + d)) >=?
                   SCREEN_HEIGHT - get_height (base_img a)))%bool]);
    cbn [bind andb]; state_cbv;
    try (destruct (sc >? hs); state_cbv;
         [destruct dk; cbn [save_highscore bind]; try congruence|]);
    eexists; reflexivity.
Qed.

Lemma flight_inv_update (s : State) :
  flight_inv s -> exists s', update s = Ok s' /\ flight_inv s'.
Proof.
  intros Hinv.
  destruct (game_active s && negb (show_volume_ui s)) eqn:Hg.
  2:{ exists s. split; [now apply update_idle | exact Hinv]. }
  destruct Hinv as (Hd & Hbase & Hbird & Hrh & k & v0 & Hk & Hv & Hm & Hact).
  assert (Ha : game_active s = true)
    by (apply andb_true_iff in Hg; tauto).
  destruct (Hact Ha) as (Hk97 & Hb & b0 & Hb0 & Hfall).
  destruct (flight_table k v0 Hk Hv) as ([d Hd1] & _ & _).
  assert (Ed : py_int_of_float (bird_movement s + GRAVITY) = Ok d)
    by (rewrite Hm; exact Hd1).
  destruct (update_total s d Ed Hd) as [s' Hu].
  exists s'. split; [exact Hu|].
  pose proof (update_active_at s s' d Hg Ed Hu) as Hs. cbv zeta in Hs.
  rewrite Hs. unfold flight_inv.
  cbn [disk assets bird bird_movement game_active]. 
  destruct (bottom_set_centery (bird s) d) as [Eb Et].
  split.
  { destruct (hit_after s d && (score s >? high_score s)); [discriminate | exact Hd]. }
  split; [exact Hbase|]. split; [exact Hbird|]. split; [exact Hrh|].
  exists (S k), v0.
  split; [lia|]. split; [exact Hv|].
  split; [rewrite Hm; reflexivity|].
  destruct (hit_after s d) eqn:Eh; [discriminate|].
  intros _. apply hit_after_false in Eh. destruct Eh as [Htop Hbot].
  assert (Hfall' : bottom (bird s) + d = b0 + fallen_after (S k) v0).
  { cbn [fallen_after]. unfold truncated. rewrite Hd1. lia. }
  rewrite Eb.
  assert (Hk96 : (k <= 96)%nat).
  { destruct (Nat.eq_dec k 97) as [-> | Hne]; [|lia].
    pose proof (flight_lands v0 Hv). unfold SCREEN_HEIGHT in Hbot. lia. }
  split; [lia|]. split.
  - unfold bottom, top in *. lia.
  - exists b0. split; [exact Hb0 | exact Hfall'].
Qed.

Lemma flight_inv_events (randint : nat -> Z) (events : list Event) :
  forall s, flight_inv s -> flight_inv (handle_events randint events s).
Proof.
  induction events as [|ev l IH]; intros s H; simpl; [exact H|].
  apply IH. now apply flight_inv_event.
Qed.

Lemma flight_inv_main_loop (randint : nat -> Z) (queue : list (list Event)) :
  forall s, flight_inv s ->
            exists s', main_loop randint queue s = Ok s' /\ flight_inv s'.
Proof.
  induction queue as [|events rest IH]; intros s H; simpl.
  - now exists s.
  - destruct (running s); [|now exists s].
    unfold frame.
    destruct (flight_inv_update _ (flight_inv_events randint events s H))
      as [s1 [Hu H1]].
    rewrite Hu. cbn [bind]. now apply IH.
Qed.


(** ** When the score file is written *)

(** X19.  No event writes the score file.  A tick either leaves the file
    and the high score as they were, or it ends an active game whose score
    beats the high score, writes that score and makes it the high score. *)
Theorem score_file_written_only_at_game_over
        (randint : nat -> Z) (s s' : State) :
  (forall event, disk (handle_event randint event s) = disk s) /\
  (update s = Ok s' ->
   (disk s' = disk s /\ high_score s' = high_score s) \/
   (game_active s = true /\ game_active s' = false /\
    high_score s < score s /\ high_score s' = score s /\
    disk s' = Text (py_str_of_int (score s)))).
Proof.
  split.
  - intros event. destruct (handle_event_keeps randint event s) as (_ & _ & H & _).
    exact H.
  - intros Hu.
    destruct (update_cases s s' Hu) as [[_ ->] | [Hg [d [_ Hs]]]]; [now left|].
    cbv zeta in Hs. rewrite Hs. cbn [disk high_score game_active].
    apply andb_true_iff in Hg. destruct Hg as [Ha _].
    destruct (hit_after s d); cbn [andb]; [|now left].
    destruct (score s >? high_score s) eqn:E; [|now left].
    apply Z.gtb_gt in E. right. repeat split; [exact Ha | lia].
Qed.

(** ** Where the gaps are *)

Lemma shift_pipe_rows (p : Pipe) :
  top (snd (shift_pipe p)) = top (snd p) /\
  bottom (fst (shift_pipe p)) = bottom (fst p).
Proof. unfold shift_pipe, move, top, bottom. cbn [fst snd ry rh]. lia. Qed.

(** X20.  If [random.randint(150, 300)] keeps to its range, then in every
    run every pair in the field has the top edge of its bottom box between
    150 and 300 and the bottom edge of its top box exactly 100 above it:
    moving a pair never changes its height on the screen. *)
Theorem field_gaps_in_range
        (randint : nat -> Z) (e : Env) (queue : list (list Event))
        (events : list Event) (s : State) :
  (forall n, 150 <= randint n <= 300) ->
  program randint e queue = Ok s ->
  Forall (fun p => 150 <= top (snd p) <= 300 /\
                   bottom (fst p) = top (snd p) - PIPE_GAP)
         (pipes (handle_events randint events s)).
Proof.
  intros Hr.
  apply (program_invariant randint e
    (fun t => Forall (fun p => 150 <= top (snd p) <= 300 /\
                               bottom (fst p) = top (snd p) - PIPE_GAP)
                     (pipes t))).
  - intros s0 H0. destruct (startup_ok e s0 H0) as (a & hs & _ & _ & ->).
    constructor.
  - intros ev t Ht.
    destruct (handle_event_pipes randint ev t) as [-> | [-> | ->]].
    + exact Ht.
    + constructor.
    + apply Forall_app. split; [exact Ht|].
      constructor; [|constructor].
      unfold create_pipe, get_rect_midtop, get_rect_midbottom, top, bottom.
      cbn [fst snd ry rh]. specialize (Hr (draws t)). lia.
  - intros t t' Ht Hu.
    destruct (update_cases t t' Hu) as [[_ ->] | [_ [d [_ ->]]]]; [exact Ht|].
    cbn [pipes]. unfold move_pipes. apply Forall_forall. intros q Hq.
    apply in_map_iff in Hq. destruct Hq as [r [<- Hin]].
    apply filter_In in Hin. destruct Hin as [Hin _].
    pose proof (proj1 (Forall_forall _ _) Ht r Hin) as Hrow. cbn beta in Hrow.
    destruct (shift_pipe_rows r) as [-> ->]. exact Hrow.
Qed.

(** ** Instances of the further properties *)

Lemma two_pipe_run_result :
  program two_pipe_draws quiet_env two_pipe_run = Ok after_crash.
Proof. vm_compute. reflexivity. Defined.

Lemma restart_only_after_game_over_crash :
  game_active after_crash = false /\ show_volume_ui after_crash = false /\
  score after_crash = 2 /\ high_score after_crash = 1 /\
  let s' := handle_event two_pipe_draws (KEYDOWN K_r) after_crash in
  s' = reset_game after_crash /\ score s' = 0 /\ pipes s' = [] /\
  game_active s' = true /\ high_score s' = 1 /\
  handle_event two_pipe_draws (KEYDOWN K_r) fresh = fresh.
Proof.
  assert (Ha : game_active after_crash = false) by reflexivity.
  assert (Hu : show_volume_ui after_crash = false) by reflexivity.
  split; [exact Ha|]. split; [exact Hu|]. split; [reflexivity|].
  split; [reflexivity|].
  destruct (restart_only_after_game_over two_pipe_draws after_crash) as [H _].
  destruct (H Ha Hu) as (R1 & R2 & R3 & R4 & _ & _ & _ & _ & R5 & _).
  destruct (restart_only_after_game_over two_pipe_draws fresh) as [_ H'].
  cbv zeta.
  split; [exact R1|]. split; [exact R2|]. split; [exact R3|].
  split; [exact R4|]. split; [exact R5|].
  apply H'. left. reflexivity.
Defined.

Lemma volume_keys_need_overlay_fresh :
  show_volume_ui fresh = false /\
  handle_event (fun _ => 200) (KEYDOWN K_m) fresh = fresh.
Proof.
  assert (H : show_volume_ui fresh = false) by reflexivity.
  split; [exact H|].
  apply (volume_keys_need_overlay (fun _ => 200) fresh K_m H). now left.
Defined.

Lemma quit_stops_the_loop_fresh :
  In QUIT [KEYDOWN K_SPACE; QUIT] /\
  running (handle_events (fun _ => 200) [KEYDOWN K_SPACE; QUIT] fresh) = false /\
  main_loop (fun _ => 200) [[KEYDOWN K_SPACE; QUIT]; [SPAWNPIPE]; [SPAWNPIPE]] fresh
  = frame (fun _ => 200) [KEYDOWN K_SPACE; QUIT] fresh.
Proof.
  assert (H : In QUIT [KEYDOWN K_SPACE; QUIT]) by (right; left; reflexivity).
  split; [exact H|].
  destruct (quit_stops_the_loop (fun _ => 200) [KEYDOWN K_SPACE; QUIT]
              [[SPAWNPIPE]; [SPAWNPIPE]] fresh) as [Hq _].
  destruct (Hq H) as [H1 H2]. split; [exact H1 | exact H2].
Defined.

Lemma game_over_is_frozen_crash :
  game_active after_crash = false /\
  ~ In (KEYDOWN K_r) [KEYDOWN K_SPACE; SPAWNPIPE; KEYDOWN K_v] /\
  exists s',
    frame two_pipe_draws [KEYDOWN K_SPACE; SPAWNPIPE; KEYDOWN K_v] after_crash
    = Ok s' /\
    game_active s' = false /\ bird s' = bird after_crash /\
    bird_movement s' = bird_movement after_crash /\
    pipes s' = pipes after_crash /\ score s' = score after_crash /\
    high_score s' = high_score after_crash /\ base_x s' = base_x after_crash /\
    disk s' = disk after_crash /\ draws s' = draws after_crash.
Proof.
  assert (Ha : game_active after_crash = false) by reflexivity.
  assert (Hr : ~ In (KEYDOWN K_r) [KEYDOWN K_SPACE; SPAWNPIPE; KEYDOWN K_v]).
  { intros [H | [H | [H | []]]]; discriminate. }
  split; [exact Ha|]. split; [exact Hr|].
  exact (game_over_is_frozen two_pipe_draws _ after_crash Ha Hr).
Defined.

Lemma flap_lifts_five_pixels_fresh :
  game_active fresh = true /\ show_volume_ui fresh = false /\
  exists s2,
    frame (fun _ => 200) [KEYDOWN K_SPACE] fresh = Ok s2 /\
    bird_movement s2 = (-5.7575)%float /\
    centery (bird s2) = 256 - 5.
Proof.
  assert (Ha : game_active fresh = true) by reflexivity.
  assert (Hu : show_volume_ui fresh = false) by reflexivity.
  split; [exact Ha|]. split; [exact Hu|].
  destruct (frame (fun _ => 200) [KEYDOWN K_SPACE] fresh) as [s2|] eqn:E;
    [|vm_compute in E; discriminate].
  exists s2. split; [reflexivity|].
  destruct (flap_lifts_five_pixels (fun _ => 200) fresh s2 Ha Hu E)
    as (_ & H1 & H2 & _).
  split; [exact H1 | exact H2].
Defined.

Lemma base_x_stays_on_screen_crash :
  program two_pipe_draws quiet_env two_pipe_run = Ok after_crash /\
  - SCREEN_WIDTH < base_x (handle_events two_pipe_draws [KEYDOWN K_v] after_crash) <= 0.
Proof.
  split; [exact two_pipe_run_result|].
  exact (base_x_stays_on_screen two_pipe_draws quiet_env two_pipe_run
           [KEYDOWN K_v] after_crash two_pipe_run_result).
Defined.

Lemma startup_outcome_quiet :
  highscore_file quiet_env <> Denied /\ fetched quiet_env = Ok sprites /\
  exists s, startup quiet_env = Ok s /\
            game_active s = true /\ show_volume_ui s = false /\
            running s = true /\ score s = 0 /\ pipes s = [] /\
            music_playing (audio s) = false /\
            load_highscore (highscore_file quiet_env) = Ok (high_score s).
Proof.
  assert (Hd : highscore_file quiet_env <> Denied) by discriminate.
  assert (Hf : fetched quiet_env = Ok sprites) by reflexivity.
  split; [exact Hd|]. split; [exact Hf|].
  exact (proj2 (proj2 (startup_outcome quiet_env)) Hd sprites Hf).
Defined.

Lemma bird_keeps_its_column_crash :
  program two_pipe_draws quiet_env two_pipe_run = Ok after_crash /\
  let s' := handle_events two_pipe_draws [KEYDOWN K_r] after_crash in
  exists a,
    fetched quiet_env = Ok a /\
    assets s' = mkAssets (bird_img a) (base_img a) (pipe_img a) (pipe_img a) /\
    bird s' = mkRect (50 - Z.quot (get_width (bird_img a)) 2) (ry (bird s'))
                     (get_width (bird_img a)) (get_height (bird_img a)) /\
    centerx (bird s') = 50.
Proof.
  split; [exact two_pipe_run_result|].
  exact (bird_keeps_its_column two_pipe_draws quiet_env two_pipe_run
           [KEYDOWN K_r] after_crash two_pipe_run_result).
Defined.

Lemma high_score_never_decreases_crash :
  main_loop two_pipe_draws two_pipe_run fresh = Ok after_crash /\
  high_score fresh = 0 /\ high_score after_crash = 1 /\
  high_score fresh <= high_score (handle_events two_pipe_draws [KEYDOWN K_r] after_crash).
Proof.
  assert (H : main_loop two_pipe_draws two_pipe_run fresh = Ok after_crash)
    by (vm_compute; reflexivity).
  split; [exact H|]. split; [reflexivity|]. split; [reflexivity|].
  exact (high_score_never_decreases two_pipe_draws two_pipe_run
           [KEYDOWN K_r] fresh after_crash H).
Defined.

Lemma score_file_matches_high_score_crash :
  program two_pipe_draws quiet_env two_pipe_run = Ok after_crash /\
  disk after_crash = Text "1" /\
  load_highscore (disk (handle_events two_pipe_draws [KEYDOWN K_r] after_crash))
  = Ok (high_score (handle_events two_pipe_draws [KEYDOWN K_r] after_crash)).
Proof.
  split; [exact two_pipe_run_result|]. split; [reflexivity|].
  refine (score_file_matches_high_score two_pipe_draws quiet_env two_pipe_run
            [KEYDOWN K_r] after_crash two_pipe_run_result _).
  apply Nat.leb_le. vm_compute. reflexivity.
Defined.


Lemma score_bounded_by_spawns_crash :
  program two_pipe_draws quiet_env two_pipe_run = Ok after_crash /\
  score after_crash = 2 /\ draws after_crash = 2%nat /\
  0 <= score (handle_events two_pipe_draws [] after_crash)
    <= Z.of_nat (draws (handle_events two_pipe_draws [] after_crash)).
Proof.
  split; [exact two_pipe_run_result|]. split; [reflexivity|].
  split; [reflexivity|].
  exact (score_bounded_by_spawns two_pipe_draws quiet_env two_pipe_run
           [] after_crash two_pipe_run_result).
Defined.

Lemma field_pairs_keep_shape_crash :
  program two_pipe_draws quiet_env two_pipe_run = Ok after_crash /\
  List.length (pipes after_crash) = 1%nat /\
  let s' := handle_events two_pipe_draws [] after_crash in
  Forall (pipe_shape (pipe_img (assets s'))) (pipes s') /\
  forall p, In p (pipes s') ->
    exists moves : nat,
      centerx (fst p) = 338 - 3 * Z.of_nat moves /\
      (centerx (fst p) = centerx (bird s') <-> moves = 96%nat).
Proof.
  split; [exact two_pipe_run_result|]. split; [reflexivity|].
  exact (field_pairs_keep_shape two_pipe_draws quiet_env two_pipe_run
           [] after_crash two_pipe_run_result).
Defined.

Lemma field_is_ordered_by_age_mid_run :
  program two_pipe_draws quiet_env (firstn 100 two_pipe_run) = Ok mid_run /\
  List.length (pipes mid_run) = 2%nat /\
  let s' := handle_events two_pipe_draws [] mid_run in
  StronglySorted left_of (pipes s') /\
  Forall (fun p => centerx (fst p) <= SCREEN_WIDTH + 50) (pipes s').
Proof.
  assert (H : program two_pipe_draws quiet_env (firstn 100 two_pipe_run)
              = Ok mid_run)
    by (vm_compute; reflexivity).
  split; [exact H|]. split; [reflexivity|].
  exact (field_is_ordered_by_age two_pipe_draws quiet_env
           (firstn 100 two_pipe_run) [] mid_run H).
Defined.

Lemma overlay_shows_valid_percentages_crash :
  program two_pipe_draws quiet_env two_pipe_run = Ok after_crash /\
  let s' := handle_events two_pipe_draws
              [KEYDOWN K_v; KEYDOWN K_m; KEYDOWN K_n] after_crash in
  exists m f,
    draw_volume_ui s'
    = Ok [FillRect (0, 0, 0) (20, 150, 248, 100);
          DrawText "Volume Settings" 90 160;
          DrawText ("Music Volume: " ++ py_str_of_int m ++ "%") 50 190;
          DrawText ("SFX Volume: " ++ py_str_of_int f ++ "%") 50 220;
          DrawText "Use M/N to adjust Music" 50 250;
          DrawText "Use K/L to adjust SFX" 50 280;
          DrawText "Press V to close" 50 310] /\
    0 <= m <= 100 /\ 0 <= f <= 100 /\
    (m mod 5 = 0 \/ m mod 5 = 4) /\ (f mod 5 = 0 \/ f mod 5 = 4).
Proof.
  split; [exact two_pipe_run_result|].
  exact (overlay_shows_valid_percentages two_pipe_draws quiet_env two_pipe_run
           [KEYDOWN K_v; KEYDOWN K_m; KEYDOWN K_n] after_crash
           two_pipe_run_result).
Defined.

Lemma load_highscore_ignores_padding_sample :
  blank " " /\ blank (String (ascii_of_nat 10) EmptyString) /\
  load_highscore (Text (" " ++ "42" ++ String (ascii_of_nat 10) EmptyString))
  = Ok 42.
Proof.
  assert (H1 : blank " ") by (repeat constructor).
  assert (H2 : blank (String (ascii_of_nat 10) EmptyString))
    by (repeat constructor).
  split; [exact H1|]. split; [exact H2|].
  refine (proj2 (load_highscore_ignores_padding " " "42" _ H1 H2) 42 _ eq_refl).
  unfold max_str_digits. simpl. lia.
Defined.


Lemma score_file_written_only_at_game_over_crash :
  update before_crash = Ok after_crash /\
  game_active before_crash = true /\ game_active after_crash = false /\
  high_score before_crash < score before_crash /\
  high_score after_crash = score before_crash /\
  disk after_crash = Text (py_str_of_int (score before_crash)).
Proof.
  assert (Hu : update before_crash = Ok after_crash) by (vm_compute; reflexivity).
  split; [exact Hu|].
  destruct (proj2 (score_file_written_only_at_game_over two_pipe_draws
                     before_crash after_crash) Hu) as [[H _] | H].
  - vm_compute in H. discriminate.
  - exact H.
Defined.

Lemma field_gaps_in_range_crash :
  (forall n, 150 <= two_pipe_draws n <= 300) /\
  program two_pipe_draws quiet_env two_pipe_run = Ok after_crash /\
  Forall (fun p => 150 <= top (snd p) <= 300 /\
                   bottom (fst p) = top (snd p) - PIPE_GAP)
         (pipes (handle_events two_pipe_draws [] after_crash)).
Proof.
  assert (Hr : forall n, 150 <= two_pipe_draws n <= 300).
  { intros [|n]; vm_compute; split; discriminate. }
  split; [exact Hr|]. split; [exact two_pipe_run_result|].
  exact (field_gaps_in_range two_pipe_draws quiet_env two_pipe_run
           [] after_crash Hr two_pipe_run_result).
Defined.
